(** * Diagnostic code printer of occa ([src/lang/codes.cpp])

    A shallow embedding of [codeSource_t], of its comparison operator and of
    [codePrinter_t] (the collector [withMessage]/[withSource], the
    suppression step [supressSources], the composer [print] and the helpers
    [getSupressedMessage], [getSidebarWidth], [addOriginFileSection]),
    followed by the properties of the specification that concern them. *)

From Stdlib Require Import ZArith List String Ascii Bool Lia.
From Stdlib Require Import DecimalString Permutation.
From Equations Require Import Equations.
Import ListNotations.

Local Open Scope string_scope.
Local Open Scope list_scope.
Local Open Scope Z_scope.

(** ** Positions and origins

    [occa/lang/file.hpp] declares [filePosition] and [fileOrigin]; the
    printer reads the fields below.  A [file_t*] and the [const char*]
    offsets are addresses, kept as integers ([0] is the null pointer); [int]
    values are integers too: line numbers, counts and indices stay far from
    the bounds of [int], and signed overflow is undefined in C++. *)

Record filePosition : Type := FilePosition {
  line      : Z;
  lineStart : Z;
  start     : Z;
  end_      : Z
}.

#[warnings="-register-all"] Inductive fileOrigin : Type := FileOrigin {
  file     : Z;
  position : filePosition;
  up       : option fileOrigin
}.

(** ** References

    [codeSource_t] has the fields [index], [origin] and [message]; they carry
    the prefix [s_] here because [codePrinter_t] has an [origin] and a
    [message] of its own. *)

Record codeSource_t : Type := CodeSource {
  s_index   : Z;
  s_origin  : fileOrigin;
  s_message : string
}.

(** [codeSource_t::codeSource_t(origin_, message_)] *)
Definition codeSource (origin_ : fileOrigin) (message_ : string) : codeSource_t :=
  {| s_index := -1; s_origin := origin_; s_message := message_ |}.

(** [codeSource_t::withIndex] *)
Definition withIndex (source : codeSource_t) (index_ : Z) : codeSource_t :=
  {| s_index := index_; s_origin := s_origin source; s_message := s_message source |}.

(** The body of [operator <] computes an [int] in the manner of a three-way
    comparison ... *)
Definition operator_lt_int (a b : codeSource_t) : Z :=
  let ao := s_origin a in
  let bo := s_origin b in
  if file ao =? file bo then
    if start (position ao) <? start (position bo) then -1
    else if start (position ao) >? start (position bo) then 1
    else if s_index a <? s_index b then -1
    else if s_index a >? s_index b then 1
    else 0
  else
    if file ao <? file bo then -1
    else if file ao >? file bo then 1
    else 0.

(** ... and its return type is [bool]: the conversion of an [int] to [bool]
    is [true] for every value but [0]. *)
Definition bool_of_int (z : Z) : bool := negb (z =? 0).

Definition operator_lt (a b : codeSource_t) : bool :=
  bool_of_int (operator_lt_int a b).

(** The key the specification orders references by, and the lexicographic
    order on it. *)
Definition sortKey (a : codeSource_t) : Z * Z * Z :=
  (file (s_origin a), start (position (s_origin a)), s_index a).

Definition lexLess (k1 k2 : Z * Z * Z) : bool :=
  let '(f1, o1, i1) := k1 in
  let '(f2, o2, i2) := k2 in
  (f1 <? f2) || ((f1 =? f2) && ((o1 <? o2) || ((o1 =? o2) && (i1 <? i2)))).

(** ** Containers

    [codeSourceSet] is a [std::set<codeSource_t>]: a list in iteration
    order.  [insert] leaves the set alone when it holds an element
    equivalent to the new one (neither is less than the other), and
    otherwise puts the new element before the first one it is less than.
    [operator <] above is not a strict weak ordering, for which C++ does not
    fix the iteration order; the statements below that go through [insert]
    use membership and size only. *)

Definition codeSourceSet : Type := list codeSource_t.

Fixpoint set_insert (x : codeSource_t) (s : codeSourceSet) : codeSourceSet :=
  match s with
  | [] => [x]
  | y :: s' =>
      if operator_lt x y then x :: s
      else if operator_lt y x then y :: set_insert x s'
      else s
  end.

Definition set_size (s : codeSourceSet) : Z := Z.of_nat (List.length s).

(** [fileCodeSourceMap] is a [std::map<file_t*, codeSourceSet>]: an
    association list in iteration order, that is by increasing key. *)

Definition fileCodeSourceMap : Type := list (Z * codeSourceSet).

(** [m[f]] followed by an update [g] of the bucket it returns: the bucket is
    created empty when the key is new. *)
Fixpoint map_update (f : Z) (g : codeSourceSet -> codeSourceSet)
    (m : fileCodeSourceMap) : fileCodeSourceMap :=
  match m with
  | [] => [(f, g [])]
  | (k, s) :: m' =>
      if f <? k then (f, g []) :: m
      else if f =? k then (k, g s) :: m'
      else (k, s) :: map_update f g m'
  end.

Fixpoint map_find (f : Z) (m : fileCodeSourceMap) : option codeSourceSet :=
  match m with
  | [] => None
  | (k, s) :: m' => if f =? k then Some s else map_find f m'
  end.

(** The keys of a [std::map] increase strictly along its iteration. *)
Fixpoint keysAbove (lo : Z) (m : fileCodeSourceMap) : bool :=
  match m with
  | [] => true
  | (k, _) :: m' => (lo <? k) && keysAbove k m'
  end.

Definition wellKeyed (m : fileCodeSourceMap) : bool :=
  match m with
  | [] => true
  | (k, _) :: m' => keysAbove k m'
  end.

(** All references of a map, bucket after bucket, and their number. *)
Definition map_elements (m : fileCodeSourceMap) : list codeSource_t :=
  List.concat (List.map snd m).

Fixpoint sourceCount (m : fileCodeSourceMap) : Z :=
  match m with
  | [] => 0
  | (_, s) :: m' => set_size s + sourceCount m'
  end.

(** ** Collaborators

    The methods of [fileOrigin] ([isValid], [onSameLine], [distanceTo]), its
    default constructor and the colouring function [yellow] are defined
    outside [codes.cpp]; the printer is parameterised by them. *)

Class Collaborators : Type := {
  defaultOrigin : fileOrigin;
  isValid    : fileOrigin -> bool;
  onSameLine : fileOrigin -> fileOrigin -> bool;
  distanceTo : fileOrigin -> fileOrigin -> Z;
  yellow     : string -> string
}.

(** ** The report *)

Definition DEFAULT_MAX_ERRORS_DISPLAYED : Z := 5.

Record codePrinter_t : Type := CodePrinter {
  isError : bool;
  code    : string;
  origin  : fileOrigin;
  message : string;
  originLineSources : codeSourceSet;
  sources     : fileCodeSourceMap;
  sourceIndex : Z
}.

(** A [std::stringstream] being filled: the characters streamed into it, and
    the calls that write to it from outside the part of [codes.cpp] that can
    be read as a program ([printStack] belongs to [fileOrigin]; the stream
    overload of [addFileSection] ends in [addSourceLineMessages], which the
    class does not declare with the arguments it is called with). *)
Inductive chunk : Type :=
| Chars (text : string)
| StackTrace (parent : fileOrigin)
| FileSection (file_ : Z) (fileSources : codeSourceSet)
              (sidebarWidth : Z) (addFilename : bool).

Definition section : Type := list chunk.

(** The call [print] ends with: [occa::printError] or [occa::printWarning]
    on the message, the code and the sections. *)
Inductive sinkCall : Type :=
| printError (message_ code_ : string) (sections : list section)
| printWarning (message_ code_ : string) (sections : list section).

(** What a call of [print] does: it raises an error, or it returns having
    made one call to the sink, either way leaving the report in a state; or
    it runs into behaviour that C++ leaves undefined, and nothing can be
    said of what follows. *)
Inductive outcome : Type :=
| Raised (what : string) (p : codePrinter_t)
| Returned (p : codePrinter_t) (emitted : sinkCall)
| Undefined.

(** Modelled from the spec: the macro [OCCA_ERROR(message, expr)] is defined
    outside [codes.cpp].  It is the hard validation error of the composer:
    it raises an error that carries the message when the expression does not
    hold, and does nothing when it holds. *)
Definition OCCA_ERROR (what : string) (expr : bool) : option string :=
  if expr then None else Some what.

(** [ss << n] for an [int]: its decimal digits, with a sign when negative. *)
Definition string_of_int (n : Z) : string :=
  NilZero.string_of_int (Z.to_int n).

(** [std::string(n, ' ')] *)
Fixpoint spaces (n : nat) : string :=
  match n with
  | O => EmptyString
  | S n' => String " " (spaces n')
  end.

Definition newline : string := String (ascii_of_nat 10) EmptyString.

(** The loop of [getSidebarWidth]; [/] on [int] truncates towards zero. *)
Equations? sidebarLoop (width line_ : Z) : Z by wf (Z.abs_nat line_) lt :=
  sidebarLoop width line_ with Z.eq_dec line_ 0 => {
    | left _ := width;
    | right _ := sidebarLoop (width + 1) (Z.quot line_ 10) }.
Proof.
  assert (Hq : Z.abs (Z.quot line_ 10) < Z.abs line_).
  { rewrite <- (Z.quot_abs line_ 10) by lia.
    apply Z.quot_lt; simpl; lia. }
  lia.
Qed.

(** [codePrinter_t::getSidebarWidth] *)
Definition getSidebarWidth (maxLine : Z) : Z :=
  sidebarLoop 3 (Z.quot maxLine 10).

(** [codePrinter_t::addDivider]: what it streams. *)
Definition addDivider (divider : string) (sidebarWidth : Z) : string :=
  let padding := sidebarWidth - Z.of_nat (String.length divider / 2) in
  (spaces (Z.to_nat padding) ++ divider)%string.

(** The loop of [supressSources] over the buckets from the iterator on, with
    the two counters it carries.  The iterator is advanced before the bucket
    is looked at.  When the bucket goes over what is left of the budget and
    is the last one, the iterator is [sources.end()]: the erase of the rest
    erases nothing and the loop ends.  When a bucket follows, [it] points to
    it, [sources.erase(it, sources.end())] invalidates [it], and the loop
    has no exit there: it compares and dereferences the invalidated
    iterator, which C++ leaves undefined ([None]). *)
Fixpoint supressLoop (sourcesAvailable supressedCount : Z)
    (m : fileCodeSourceMap) : option (fileCodeSourceMap * Z) :=
  match m with
  | [] => Some ([], supressedCount)
  | (f, fileSources) :: rest =>
      let fileSourceCount := set_size fileSources in
      if sourcesAvailable >=? fileSourceCount then
        match supressLoop (sourcesAvailable - fileSourceCount)
                          supressedCount rest with
        | Some (rest', n) => Some ((f, fileSources) :: rest', n)
        | None => None
        end
      else if sourcesAvailable <? fileSourceCount then
        match rest with
        | [] =>
            Some ([(f, firstn (Z.to_nat sourcesAvailable) fileSources)],
                  fileSourceCount - sourcesAvailable)
        | _ :: _ => None
        end
      else
        match supressLoop sourcesAvailable
                          (supressedCount + fileSourceCount) rest with
        | Some (rest', n) => Some ((f, fileSources) :: rest', n)
        | None => None
        end
  end.

(** The bucket of a file in a map ([std::map::operator[]] as a read). *)
Definition bucket (f : Z) (m : fileCodeSourceMap) : codeSourceSet :=
  match map_find f m with
  | Some s => s
  | None => []
  end.

(** The conversion of a [size_t] to [bool]. *)
Definition bool_of_size (s : codeSourceSet) : bool :=
  negb (set_size s =? 0).

Section Printer.
Context `{Collaborators}.

(** [codePrinter_t::codePrinter_t]; the sink [out] is not kept. *)
Definition codePrinter (isError_ : bool) (code_ : string) : codePrinter_t :=
  {| isError := isError_; code := code_;
     origin := defaultOrigin; message := "";
     originLineSources := []; sources := []; sourceIndex := 0 |}.

(** [codePrinter_t::withMessage] *)
Definition withMessage (p : codePrinter_t) (origin_ : fileOrigin)
    (message_ : string) : codePrinter_t :=
  {| isError := isError p; code := code p;
     origin := origin_; message := message_;
     originLineSources := originLineSources p;
     sources := sources p; sourceIndex := sourceIndex p |}.

(** [codePrinter_t::withSource(const codeSource_t &)] *)
Definition withSource (p : codePrinter_t) (source : codeSource_t)
    : codePrinter_t :=
  if (file (s_origin source) =? file (origin p))
     && onSameLine (s_origin source) (origin p)
  then
    {| isError := isError p; code := code p;
       origin := origin p; message := message p;
       originLineSources :=
         set_insert (withIndex source (sourceIndex p)) (originLineSources p);
       sources := sources p;
       sourceIndex := sourceIndex p + 1 |}
  else
    {| isError := isError p; code := code p;
       origin := origin p; message := message p;
       originLineSources := originLineSources p;
       sources :=
         map_update (file (s_origin source))
                    (set_insert (withIndex source (sourceIndex p)))
                    (sources p);
       sourceIndex := sourceIndex p + 1 |}.

(** [codePrinter_t::withSource(const fileOrigin &, const std::string &)] *)
Definition withSourceAt (p : codePrinter_t) (origin_ : fileOrigin)
    (message_ : string) : codePrinter_t :=
  withSource p (codeSource origin_ message_).

(** [codePrinter_t::supressSources]: the report it leaves and the count it
    returns, when its loop has a defined behaviour. *)
Definition supressSources (p : codePrinter_t) : option (codePrinter_t * Z) :=
  match supressLoop DEFAULT_MAX_ERRORS_DISPLAYED 0 (sources p) with
  | Some (sources', supressedCount) =>
      Some ({| isError := isError p; code := code p;
               origin := origin p; message := message p;
               originLineSources := originLineSources p;
               sources := sources';
               sourceIndex := sourceIndex p |},
            supressedCount)
  | None => None
  end.

(** [codePrinter_t::getSupressedMessage] *)
Definition getSupressedMessage (p : codePrinter_t) (supressedCount : Z)
    : string :=
  if supressedCount <=? 0 then ""
  else
    let ss := ("Supressed " ++ string_of_int supressedCount
               ++ " additional ")%string in
    let ss :=
      if supressedCount >? 1
      then (ss ++ (if isError p then "errors" else "warnings"))%string
      else (ss ++ (if isError p then "error" else "warning"))%string in
    yellow ss.

(** The test of the first loop of [addOriginFileSection] on a reference
    of the origin's file: it is on another line than the primary origin
    and at a positive distance from it. *)
Definition precedes (origin_ : fileOrigin) (source : codeSource_t) : bool :=
  negb (onSameLine (s_origin source) origin_)
  && (distanceTo origin_ (s_origin source) >? 0).

(** The first loop of [addOriginFileSection], over the bucket of the
    origin's file: one step updates [maxLine] and [originIsFirstSource]. *)
Definition scanSource (origin_ : fileOrigin) (acc : Z * bool)
    (source : codeSource_t) : Z * bool :=
  let '(maxLine, originIsFirstSource) := acc in
  let maxLine :=
    if maxLine <? line (position (s_origin source))
    then line (position (s_origin source)) else maxLine in
  let originIsFirstSource :=
    if precedes origin_ source then false else originIsFirstSource in
  (maxLine, originIsFirstSource).

Definition scanSources (origin_ : fileOrigin) (fileSources : codeSourceSet)
    : Z * bool :=
  fold_left (scanSource origin_) fileSources
            (line (position origin_), true).

(** The bucket [addOriginFileSection] binds with
    [codeSourceSet &fileSources = sources[origin.file]]. *)
Definition originFileSources (p : codePrinter_t) : codeSourceSet :=
  bucket (file (origin p))
         (map_update (file (origin p)) (fun s => s) (sources p)).

(** [codePrinter_t::addOriginFileSection]: the report it leaves
    ([sources[origin.file]] creates the bucket when there is none) and the
    section it pushes. *)
Definition addOriginFileSection (p : codePrinter_t)
    : codePrinter_t * section :=
  let sources' := map_update (file (origin p)) (fun s => s) (sources p) in
  let fileSources := originFileSources p in
  let '(maxLine, originIsFirstSource) := scanSources (origin p) fileSources in
  let ss : section :=
    match up (origin p) with
    | Some parent => [StackTrace parent]
    | None => []
    end in
  let sidebarWidth := getSidebarWidth maxLine in
  let hasOriginSources := bool_of_size (originLineSources p) in
  let hasFileSources := bool_of_size fileSources in
  let needsDivider :=
    negb originIsFirstSource && hasOriginSources && hasFileSources in
  let ss :=
    if hasOriginSources
    then ss ++ [Chars newline;
                FileSection (file (origin p)) (originLineSources p)
                            sidebarWidth true]
    else ss in
  let ss :=
    if needsDivider
    then ss ++ [Chars newline; Chars (addDivider "^^^" sidebarWidth)]
    else ss in
  let ss :=
    if hasFileSources
    then (if needsDivider then ss ++ [Chars newline] else ss)
         ++ [FileSection (file (origin p)) fileSources sidebarWidth false]
    else ss in
  ({| isError := isError p; code := code p;
      origin := origin p; message := message p;
      originLineSources := originLineSources p;
      sources := sources';
      sourceIndex := sourceIndex p |},
   ss).

(** [codePrinter_t::addSourceSections] *)
Definition addSourceSections (p : codePrinter_t) (sections : list section)
    : codePrinter_t * list section :=
  let '(p1, originSection) := addOriginFileSection p in
  let sections := sections ++ [originSection] in
  (p1,
   fold_left
     (fun (acc : list section) (entry : Z * codeSourceSet) =>
        let '(file_, fileSources) := entry in
        if negb (file_ =? file (origin p1))
        then acc ++ [[FileSection file_ fileSources (-1) true]]
        else acc)
     (sources p1) sections).

(** [codePrinter_t::print] *)
Definition print (p : codePrinter_t) : outcome :=
  match OCCA_ERROR ((if isError p then "Error" else "Warning")
                    ++ " code is missing its origin")%string
                   (isValid (origin p)) with
  | Some what => Raised what p
  | None =>
      match supressSources p with
      | None => Undefined
      | Some (p1, supressedCount) =>
          let '(p2, sections) := addSourceSections p1 [] in
          let sections :=
            sections ++ [[Chars (getSupressedMessage p2 supressedCount)]] in
          Returned p2
            (if isError p2
             then printError (message p2) (code p2) sections
             else printWarning (message p2) (code p2) sections)
      end
  end.
End Printer.

(** ** The collaborators of the examples *)

(** Modelled from the spec: [fileOrigin::isValid], [fileOrigin::onSameLine],
    [fileOrigin::distanceTo], the default [fileOrigin] and [yellow] are not
    part of [codes.cpp].  A valid origin is one that is not absent, that is
    one with a file; two origins share a line when they have the same file
    and line number; the distance from the primary origin to a reference is
    positive when the reference lies before it; styling is cosmetic and
    leaves the text as it is. *)
Definition plainCollaborators : Collaborators := {|
  defaultOrigin :=
    {| file := 0;
       position := {| line := 0; lineStart := 0; start := 0; end_ := 0 |};
       up := None |};
  isValid := fun o => negb (file o =? 0);
  onSameLine := fun o other =>
    (file o =? file other)
    && (line (position o) =? line (position other));
  distanceTo := fun o other =>
    if file o =? file other
    then start (position o) - end_ (position other)
    else -1;
  yellow := fun s => s
|}.

(** An origin of the examples: a token of one character at an offset of a
    line of a file. *)
Definition at_ (file_ line_ offset : Z) : fileOrigin :=
  {| file := file_;
     position := {| line := line_; lineStart := 100 * line_;
                    start := 100 * line_ + offset;
                    end_ := 100 * line_ + offset + 1 |};
     up := None |}.

(** An error report whose primary origin is [origin_] ... *)
Definition reportAt (origin_ : fileOrigin) : codePrinter_t :=
  withMessage (@codePrinter plainCollaborators true "E100") origin_ "message".

(** ... and [n] references added to it on one line of one file. *)
Definition addSources (file_ line_ : Z) (n : nat) (p : codePrinter_t)
    : codePrinter_t :=
  fold_left
    (fun q k => @withSourceAt plainCollaborators q
                  (at_ file_ line_ (Z.of_nat k)) "")
    (seq 0 n) p.

(** The insertion operations of the collector, and a sequence of them
    applied to a report. *)
Inductive insertion : Type :=
| WithMessage (origin_ : fileOrigin) (message_ : string)
| WithSource (source : codeSource_t).

Definition insert `{Collaborators} (p : codePrinter_t) (op : insertion)
    : codePrinter_t :=
  match op with
  | WithMessage origin_ message_ => withMessage p origin_ message_
  | WithSource source => withSource p source
  end.

Definition inserts `{Collaborators} (p : codePrinter_t) (ops : list insertion)
    : codePrinter_t :=
  fold_left insert ops p.

(** Invariants of the collector.  Every reference of the report was stamped
    with an index below the counter, and the origin-line set and the
    per-file map share none. *)
Definition stamped (p : codePrinter_t) : Prop :=
  (forall x, In x (originLineSources p) -> s_index x < sourceIndex p)
  /\ (forall x, In x (map_elements (sources p)) -> s_index x < sourceIndex p)
  /\ (forall x, In x (originLineSources p) ->
                ~ In x (map_elements (sources p))).

(** The test of [withSource]: same file and same line as an origin. *)
Definition onOriginLine `{Collaborators} (origin_ : fileOrigin)
    (x : codeSource_t) : bool :=
  (file (s_origin x) =? file origin_) && onSameLine (s_origin x) origin_.

(** Every reference is in the container its origin sends it to. *)
Definition routed `{Collaborators} (p : codePrinter_t) : Prop :=
  (forall x, In x (originLineSources p) -> onOriginLine (origin p) x = true)
  /\ (forall x, In x (map_elements (sources p)) ->
                onOriginLine (origin p) x = false).

(** Whether a text is what [addDivider] streams for the marker of the
    origin-file section: spaces, then the three carets. *)
Fixpoint isDividerText (text : string) : bool :=
  match text with
  | String " " rest => isDividerText rest
  | _ => String.eqb text "^^^"
  end.

Definition isDivider (c : chunk) : bool :=
  match c with
  | Chars text => isDividerText text
  | _ => false
  end.

Definition dividerEmitted (ss : section) : bool := existsb isDivider ss.

(** [errorCode] and [warningCode]: a new report of each severity. *)
Definition errorCode `{Collaborators} (code_ : string) : codePrinter_t :=
  codePrinter true code_.

Definition warningCode `{Collaborators} (code_ : string) : codePrinter_t :=
  codePrinter false code_.

(** ** The stream overload of [addFileSection]

    What it writes goes through [addFilenameLine] and through
    [addSourceLineMessages(ss, lineStartIt, it)], called on a range of the
    set; the calls are recorded, the second with the references of its
    range. *)
Inductive fileSectionCall : Type :=
| FilenameLine (file_ : Z)
| SourceLineMessages (lineSources : list codeSource_t).

(** [currentOrigin.position.line = line_] *)
Definition withLine (o : fileOrigin) (line_ : Z) : fileOrigin :=
  {| file := file o;
     position := {| line := line_;
                    lineStart := lineStart (position o);
                    start := start (position o);
                    end_ := end_ (position o) |};
     up := up o |}.

(** The loop of [addFileSection] and the call that follows it: [pending]
    holds the references from [lineStartIt] up to [it], [rest] those from
    [it] on. *)
Fixpoint lineGroups `{Collaborators} (currentOrigin : fileOrigin)
    (pending rest : list codeSource_t) : list fileSectionCall :=
  match rest with
  | [] => [SourceLineMessages pending]
  | source :: rest' =>
      if negb (onSameLine (s_origin source) currentOrigin)
      then SourceLineMessages pending
           :: lineGroups (s_origin source) [source] rest'
      else lineGroups currentOrigin (pending ++ [source]) rest'
  end.

(** [codePrinter_t::addFileSection(std::stringstream &, ...)]: the calls it
    makes, and the value its local [sidebarWidth] ends with (no call
    receives it). *)
Definition addFileSection `{Collaborators} (file_ : Z)
    (fileSources : codeSourceSet) (sidebarWidth : Z) (addFilename : bool)
    : list fileSectionCall * Z :=
  match fileSources with
  | [] => ([], sidebarWidth)
  | first :: _ =>
      let header := if addFilename then [FilenameLine file_] else [] in
      let sidebarWidth :=
        if sidebarWidth <? 0
        then getSidebarWidth
               (line (position (s_origin (List.last fileSources first))))
        else sidebarWidth in
      (header ++ lineGroups (withLine (s_origin first) (-1)) [] fileSources,
       sidebarWidth)
  end.

(** The references of the ranges passed to [addSourceLineMessages], call
    after call. *)
Fixpoint callSources (calls : list fileSectionCall) : list codeSource_t :=
  match calls with
  | [] => []
  | FilenameLine _ :: calls' => callSources calls'
  | SourceLineMessages lineSources :: calls' =>
      lineSources ++ callSources calls'
  end.

(** The ranges themselves. *)
Fixpoint callRanges (calls : list fileSectionCall)
    : list (list codeSource_t) :=
  match calls with
  | [] => []
  | FilenameLine _ :: calls' => callRanges calls'
  | SourceLineMessages lineSources :: calls' =>
      lineSources :: callRanges calls'
  end.

(** The sections that [addSourceSections] pushes for the files other than
    the origin's, read off a map. *)
Definition otherFileSections (originFile : Z) (m : fileCodeSourceMap)
    : list section :=
  List.map (fun entry : Z * codeSourceSet =>
              [FileSection (fst entry) (snd entry) (-1) true])
           (List.filter (fun entry : Z * codeSourceSet =>
                           negb (fst entry =? originFile)) m).

(** The bounds of [int]. *)
Definition INT_MAX : Z := 2147483647.

(** Every reference a report holds: the origin-line set, then the
    per-file map. *)
Definition allSources (p : codePrinter_t) : list codeSource_t :=
  originLineSources p ++ map_elements (sources p).

(** The number of [withSource] calls in a sequence of insertions. *)
Fixpoint withSourceCount (ops : list insertion) : nat :=
  match ops with
  | [] => O
  | WithMessage _ _ :: ops' => withSourceCount ops'
  | WithSource _ :: ops' => S (withSourceCount ops')
  end.

(** The indices that a counter at [n] has handed out. *)
Definition indicesBelow (n : Z) : list Z :=
  List.map Z.of_nat (seq 0 (Z.to_nat n)).

(** Whether every reference of a range is on the line of an origin. *)
Definition onLineOf `{Collaborators} (anchor : fileOrigin)
    (lineSources : list codeSource_t) : bool :=
  forallb (fun x => onSameLine (s_origin x) anchor) lineSources.

(** Whether ranges are the line groups that follow an origin: each range
    starts with a reference that is not on the line of the origin before
    it, goes on with references on the line of that first reference, and
    the ranges after it follow the origin of that first reference. *)
Fixpoint lineGrouped `{Collaborators} (anchor : fileOrigin)
    (ranges : list (list codeSource_t)) : bool :=
  match ranges with
  | [] => true
  | [] :: _ => false
  | (first :: others) :: ranges' =>
      negb (onSameLine (s_origin first) anchor)
      && onLineOf (s_origin first) others
      && lineGrouped (s_origin first) ranges'
  end.

(** * Properties *)

(** ** The comparison operator *)

(** What the operator computes: whether the two keys differ. *)
Lemma operator_lt_true_iff (a b : codeSource_t) :
  operator_lt a b = true <-> sortKey a <> sortKey b.
Proof.
  unfold operator_lt, operator_lt_int, bool_of_int, sortKey.
  set (fa := file (s_origin a)). set (fb := file (s_origin b)).
  set (oa := start (position (s_origin a))).
  set (ob := start (position (s_origin b))).
  set (ia := s_index a). set (ib := s_index b).
  rewrite !Z.gtb_ltb.
  destruct (Z.eqb_spec fa fb) as [Ef | Ef].
  - destruct (Z.ltb_spec oa ob); [| destruct (Z.ltb_spec ob oa);
      [| destruct (Z.ltb_spec ia ib); [| destruct (Z.ltb_spec ib ia)]]];
      simpl; split; intros K; try reflexivity; try discriminate;
      try (intros Q; injection Q; intros; lia).
    exfalso; apply K.
    replace oa with ob by lia. replace ia with ib by lia.
    rewrite Ef. reflexivity.
  - destruct (Z.ltb_spec fa fb); [| destruct (Z.ltb_spec fb fa)];
      simpl; split; intros K; try reflexivity;
      try (intros Q; injection Q; intros; lia); lia.
Qed.

Lemma operator_lt_index (a b : codeSource_t) :
  s_index a <> s_index b -> operator_lt a b = true.
Proof.
  intros Hne. apply operator_lt_true_iff.
  unfold sortKey. intros Q. injection Q. intros. contradiction.
Qed.

(** C1. The operator does not order references by (file, offset,
    insertion index): on two references of one file, the first at the
    greater offset, it answers that the first comes before the second, and
    also that the second comes before the first. *)
Theorem operator_lt_not_lexicographic :
  let a := {| s_index := 0; s_origin := at_ 1 1 5; s_message := "" |} in
  let b := {| s_index := 1; s_origin := at_ 1 1 3; s_message := "" |} in
  operator_lt a b = true
  /\ lexLess (sortKey a) (sortKey b) = false
  /\ operator_lt b a = true.
Proof. repeat split. Qed.

(** ** The suppression step *)

Lemma set_size_nonneg (s : codeSourceSet) : 0 <= set_size s.
Proof. unfold set_size. lia. Qed.

Lemma sourceCount_nonneg (m : fileCodeSourceMap) : 0 <= sourceCount m.
Proof.
  induction m as [| [f s] m IH]; simpl; [lia |].
  pose proof (set_size_nonneg s). lia.
Qed.

Lemma sourceCount_app (m1 m2 : fileCodeSourceMap) :
  sourceCount (m1 ++ m2) = sourceCount m1 + sourceCount m2.
Proof.
  induction m1 as [| [f s] m1 IH]; simpl; [reflexivity |].
  rewrite IH. lia.
Qed.

Lemma set_size_firstn (n : Z) (s : codeSourceSet) :
  0 <= n < set_size s -> set_size (firstn (Z.to_nat n) s) = n.
Proof.
  unfold set_size. intros Hn.
  rewrite length_firstn. lia.
Qed.

(** The loop keeps the buckets that fit in the budget as they are. *)
Lemma supressLoop_prefix (pre rest : fileCodeSourceMap) :
  forall sourcesAvailable supressedCount,
    sourceCount pre <= sourcesAvailable ->
    supressLoop sourcesAvailable supressedCount (pre ++ rest) =
    match supressLoop (sourcesAvailable - sourceCount pre)
                      supressedCount rest with
    | Some (rest', n) => Some (pre ++ rest', n)
    | None => None
    end.
Proof.
  induction pre as [| [f s] pre IH]; intros a c Hle; simpl in *.
  - rewrite Z.sub_0_r. destruct (supressLoop a c rest) as [[rest' n] |];
      reflexivity.
  - pose proof (sourceCount_nonneg pre) as Hpre.
    destruct (Z.geb_spec a (set_size s)) as [Hge | Hlt]; [| lia].
    rewrite IH by lia.
    replace (a - set_size s - sourceCount pre)
      with (a - (set_size s + sourceCount pre)) by lia.
    destruct (supressLoop _ c rest) as [[rest' n] |]; reflexivity.
Qed.

(** A map that fits in the budget goes through the loop as it is. *)
Lemma supressLoop_fits (m : fileCodeSourceMap) (sourcesAvailable count : Z) :
  sourceCount m <= sourcesAvailable ->
  supressLoop sourcesAvailable count m = Some (m, count).
Proof.
  intros Hfits.
  pose proof (supressLoop_prefix m [] sourcesAvailable count Hfits) as Hpre.
  rewrite app_nil_r in Hpre. rewrite Hpre. simpl.
  rewrite app_nil_r. reflexivity.
Qed.

(** What the loop gives when its behaviour is defined: either the map fits
    in the budget and nothing changes, or the map is cut down to the budget
    and the count is what the map has lost. *)
Lemma supressLoop_result (m : fileCodeSourceMap) :
  forall sourcesAvailable supressedCount kept n,
    0 <= sourcesAvailable ->
    supressLoop sourcesAvailable supressedCount m = Some (kept, n) ->
    (sourceCount m <= sourcesAvailable /\ kept = m /\ n = supressedCount)
    \/ (sourcesAvailable < sourceCount m
        /\ sourceCount kept = sourcesAvailable
        /\ n = sourceCount m - sourcesAvailable).
Proof.
  induction m as [| [f s] m IH]; intros a c kept n Ha Hsome; simpl in *.
  - injection Hsome as <- <-. left. repeat split. lia.
  - pose proof (set_size_nonneg s) as Hs.
    destruct (Z.geb_spec a (set_size s)) as [Hge | Hlt].
    + destruct (supressLoop (a - set_size s) c m) as [[rest' k] |] eqn:Hrest;
        [| discriminate].
      injection Hsome as <- <-.
      destruct (IH (a - set_size s) c rest' k ltac:(lia) Hrest)
        as [(Hfit & -> & ->) | (Hover & Hkept & ->)].
      * left. repeat split. lia.
      * right. cbn [sourceCount]. repeat split; lia.
    + destruct (Z.ltb_spec a (set_size s)); [| lia].
      destruct m; [| discriminate].
      injection Hsome as <- <-. right. cbn [sourceCount].
      rewrite set_size_firstn by lia. repeat split; lia.
Qed.

(** What the loop leaves fits in the budget. *)
Lemma supressLoop_count (m kept : fileCodeSourceMap)
    (sourcesAvailable supressedCount n : Z) :
  0 <= sourcesAvailable ->
  supressLoop sourcesAvailable supressedCount m = Some (kept, n) ->
  sourceCount kept <= sourcesAvailable.
Proof.
  intros Ha Hsome.
  destruct (supressLoop_result m _ _ _ _ Ha Hsome)
    as [(Hfit & -> & _) | (_ & Hkept & _)]; lia.
Qed.

(** What [supressSources] leaves of the report when it returns. *)
Lemma supressSources_some (p q : codePrinter_t) (n : Z) :
  supressSources p = Some (q, n) ->
  supressLoop DEFAULT_MAX_ERRORS_DISPLAYED 0 (sources p)
  = Some (sources q, n)
  /\ originLineSources q = originLineSources p
  /\ origin q = origin p
  /\ isError q = isError p /\ message q = message p /\ code q = code p
  /\ sourceIndex q = sourceIndex p.
Proof.
  unfold supressSources.
  destruct (supressLoop DEFAULT_MAX_ERRORS_DISPLAYED 0 (sources p))
    as [[kept k] |]; [| discriminate].
  intros Hsome. injection Hsome as <- <-. repeat split.
Qed.

Lemma supressSources_fits (p : codePrinter_t) :
  sourceCount (sources p) <= DEFAULT_MAX_ERRORS_DISPLAYED ->
  supressSources p = Some (p, 0).
Proof.
  intros Hfits. unfold supressSources.
  rewrite supressLoop_fits by exact Hfits.
  destruct p; reflexivity.
Qed.

(** C2. On a report with six references in one file and a seventh in a
    later file, the suppression step cuts the first bucket down, erases the
    buckets from its iterator on, and goes on with that iterator: its
    behaviour is undefined there, and it returns no count. *)
Theorem supressSources_undefined_after_erase :
  let p := addSources 3 1 1 (addSources 2 1 6 (reportAt (at_ 1 1 0))) in
  List.map (fun entry => set_size (snd entry)) (sources p) = [6; 1]
  /\ supressSources p = None.
Proof. vm_compute. split; reflexivity. Qed.

(** C7. On a report with three, four and two references in three files,
    the second bucket goes over the budget and a bucket follows it: the
    first run of the suppression step has no defined behaviour, and leaves
    no report on which to run it again. *)
Theorem supressSources_no_first_run :
  let p := addSources 4 1 2 (addSources 3 1 4
             (addSources 2 1 3 (reportAt (at_ 1 1 0)))) in
  List.map (fun entry => set_size (snd entry)) (sources p) = [3; 4; 2]
  /\ supressSources p = None.
Proof. vm_compute. split; reflexivity. Qed.

(** C10, as the code has it.  When the suppression step returns, what it
    leaves in the per-file map holds at most
    [DEFAULT_MAX_ERRORS_DISPLAYED] references.  The origin-line set is
    outside the budget: the step leaves it whole, whatever its size. *)
Theorem supressSources_bounds_file_map (p q : codePrinter_t) (n : Z) :
  supressSources p = Some (q, n) ->
  sourceCount (sources q) <= DEFAULT_MAX_ERRORS_DISPLAYED
  /\ originLineSources q = originLineSources p.
Proof.
  intros Hsome.
  destruct (supressSources_some p q n Hsome) as (Hloop & Hline & _).
  split; [| exact Hline].
  apply (supressLoop_count (sources p) (sources q)
           DEFAULT_MAX_ERRORS_DISPLAYED 0 n); [| exact Hloop].
  unfold DEFAULT_MAX_ERRORS_DISPLAYED. lia.
Qed.

(** Seven references in one file: the step returns, with five left. *)
Lemma supressSources_bounds_file_map_witness :
  let p := addSources 2 1 7 (reportAt (at_ 1 1 0)) in
  exists q n,
    supressSources p = Some (q, n)
    /\ sourceCount (sources q) <= DEFAULT_MAX_ERRORS_DISPLAYED.
Proof.
  intros p. eexists. eexists. split; [reflexivity |].
  refine (proj1 (supressSources_bounds_file_map p _ _ _)). reflexivity.
Defined.

(** C10, as stated, fails: six references on the line of the primary origin
    are all in the origin-line set after the suppression step. *)
Lemma supressSources_origin_line_unbounded :
  let p := addSources 1 1 6 (reportAt (at_ 1 1 0)) in
  exists q n,
    supressSources p = Some (q, n)
    /\ ~ (set_size (originLineSources q) + sourceCount (sources q)
          <= DEFAULT_MAX_ERRORS_DISPLAYED).
Proof.
  eexists. eexists. split; [reflexivity |].
  vm_compute. intros Hle. apply Hle. reflexivity.
Qed.

(** C3, as the code has it.  When the suppression step returns, it has left
    the origin-line set whole.  The bucket of the origin's file in the
    per-file map is treated as every other bucket is: it stays whole when
    the buckets up to and including it hold no more references than the
    budget, and it is cut down to what is left of the budget when the
    buckets before it fit in the budget and it does not; it is then the
    last bucket of the map. *)
Theorem supressSources_origin_file_bucket
    (p q : codePrinter_t) (n : Z) (pre post : fileCodeSourceMap)
    (fileSources : codeSourceSet) :
  sources p = pre ++ (file (origin p), fileSources) :: post ->
  supressSources p = Some (q, n) ->
  originLineSources q = originLineSources p
  /\ (sourceCount pre + set_size fileSources
        <= DEFAULT_MAX_ERRORS_DISPLAYED ->
      exists post',
        sources q = pre ++ (file (origin p), fileSources) :: post')
  /\ (sourceCount pre <= DEFAULT_MAX_ERRORS_DISPLAYED
        < sourceCount pre + set_size fileSources ->
      post = []
      /\ sources q =
         pre ++ [(file (origin p),
                  firstn (Z.to_nat (DEFAULT_MAX_ERRORS_DISPLAYED
                                    - sourceCount pre))
                         fileSources)]).
Proof.
  intros Hsources Hsome.
  destruct (supressSources_some p q n Hsome) as (Hloop & Hline & _).
  split; [exact Hline |].
  rewrite Hsources in Hloop.
  pose proof (sourceCount_nonneg pre) as Hpre.
  pose proof (set_size_nonneg fileSources) as Hsize.
  split; intros Hfit; rewrite supressLoop_prefix in Hloop by lia;
    remember (DEFAULT_MAX_ERRORS_DISPLAYED - sourceCount pre) as left_
      eqn:Hleft;
    cbn [supressLoop] in Hloop.
  - destruct (Z.geb_spec left_ (set_size fileSources)); [| lia].
    destruct (supressLoop _ 0 post) as [[post' k] |]; [| discriminate].
    injection Hloop as Hkept _. exists post'. symmetry. exact Hkept.
  - destruct (Z.geb_spec left_ (set_size fileSources)); [lia |].
    destruct (Z.ltb_spec left_ (set_size fileSources)); [| lia].
    destruct post; [| discriminate].
    injection Hloop as Hkept _. split; [reflexivity |].
    symmetry. exact Hkept.
Qed.

(** On a report with seven references in the file of the primary origin,
    on another line, the bucket of that file is cut down to five. *)
Lemma supressSources_origin_file_bucket_witness :
  let p := addSources 1 2 7 (reportAt (at_ 1 1 0)) in
  exists q n,
    supressSources p = Some (q, n)
    /\ originLineSources q = originLineSources p
    /\ sources q = [(1, firstn 5 (bucket 1 (sources p)))].
Proof.
  intros p. eexists. eexists. split; [reflexivity |].
  refine (let H := supressSources_origin_file_bucket p _ _ [] []
                     (bucket 1 (sources p)) eq_refl eq_refl in _).
  destruct H as [Hline [_ Hcut]].
  split; [exact Hline |].
  apply Hcut. vm_compute. split; [discriminate | reflexivity].
Defined.

(** C3, as stated, fails: on that report the suppression step truncates the
    bucket of the origin's own file. *)
Lemma supressSources_truncates_origin_file :
  let p := addSources 1 2 7 (reportAt (at_ 1 1 0)) in
  exists q n,
    supressSources p = Some (q, n)
    /\ file (origin p) = 1
    /\ set_size (bucket (file (origin p)) (sources p)) = 7
    /\ set_size (bucket (file (origin q)) (sources q)) = 5
    /\ bucket (file (origin q)) (sources q)
       <> bucket (file (origin p)) (sources p).
Proof.
  eexists. eexists. split; [reflexivity |].
  vm_compute. repeat split. discriminate.
Qed.

(** ** The footer *)

Lemma string_append_assoc (s1 s2 s3 : string) :
  ((s1 ++ s2) ++ s3 = s1 ++ (s2 ++ s3))%string.
Proof.
  induction s1 as [| c s1 IH]; simpl; [reflexivity |].
  rewrite IH. reflexivity.
Qed.

(** The shape of the footer for a positive count: the noun follows the
    severity and is in the plural exactly when the count exceeds one. *)
Lemma getSupressedMessage_positive `{Collaborators}
    (p : codePrinter_t) (supressedCount : Z) :
  0 < supressedCount ->
  getSupressedMessage p supressedCount =
  yellow ("Supressed " ++ string_of_int supressedCount ++ " additional "
          ++ (if isError p then "error" else "warning")
          ++ (if (1 <? supressedCount)%Z then "s" else ""))%string.
Proof.
  intros Hpos. unfold getSupressedMessage.
  destruct (Z.leb_spec supressedCount 0); [lia |].
  rewrite Z.gtb_ltb.
  destruct (1 <? supressedCount), (isError p);
    rewrite !string_append_assoc; reflexivity.
Qed.

(** C4. For an error report and a count of 2, the footer is the coloured
    text [Supressed 2 additional errors]: its first word has one [p], and
    the text is not [Suppressed 2 additional errors]. *)
Theorem getSupressedMessage_two_errors `{Collaborators} (code_ : string) :
  getSupressedMessage (codePrinter true code_) 2
  = yellow "Supressed 2 additional errors"
  /\ "Supressed 2 additional errors" <> "Suppressed 2 additional errors".
Proof. split; [reflexivity | discriminate]. Qed.

(** ** The sidebar *)

Lemma sidebarLoop_zero (width : Z) : sidebarLoop width 0 = width.
Proof. simp sidebarLoop. reflexivity. Qed.

Lemma sidebarLoop_step (width line_ : Z) :
  line_ <> 0 ->
  sidebarLoop width line_ = sidebarLoop (width + 1) (Z.quot line_ 10).
Proof.
  intros Hne. rewrite sidebarLoop_equation_1.
  destruct (Z.eq_dec line_ 0); [contradiction | reflexivity].
Qed.

Lemma quot10_bounds (k : nat) (n : Z) :
  10 ^ Z.of_nat (S k) <= n < 10 ^ Z.of_nat (S (S k)) ->
  10 ^ Z.of_nat k <= Z.quot n 10 < 10 ^ Z.of_nat (S k).
Proof.
  rewrite !Nat2Z.inj_succ, !Z.pow_succ_r by lia.
  intros [Hlo Hhi].
  assert (0 < 10 ^ Z.of_nat k) by (apply Z.pow_pos_nonneg; lia).
  rewrite Z.quot_div_nonneg by lia.
  split.
  - apply Z.div_le_lower_bound; lia.
  - apply Z.div_lt_upper_bound; lia.
Qed.

(** A line number of [k + 1] digits takes the loop round [k + 1] times. *)
Lemma sidebarLoop_digits (k : nat) :
  forall width line_,
    10 ^ Z.of_nat k <= line_ < 10 ^ Z.of_nat (S k) ->
    sidebarLoop width line_ = width + Z.of_nat (S k).
Proof.
  induction k as [| k IH]; intros width line_ Hrange.
  - change (10 ^ Z.of_nat 0) with 1 in Hrange.
    change (10 ^ Z.of_nat 1) with 10 in Hrange.
    rewrite sidebarLoop_step by lia.
    rewrite Z.quot_small by lia.
    rewrite sidebarLoop_zero. lia.
  - assert (0 < 10 ^ Z.of_nat (S k)) by (apply Z.pow_pos_nonneg; lia).
    rewrite sidebarLoop_step by lia.
    rewrite IH by (apply quot10_bounds; exact Hrange).
    lia.
Qed.

(** C8. A positive maximum line number of [digits] decimal digits gives a
    sidebar of width 3 plus [digits - 1]; 5 gives 3, 42 gives 4 and 523
    gives 5. *)
Theorem getSidebarWidth_digits (maxLine digits : Z) :
  1 <= digits ->
  10 ^ (digits - 1) <= maxLine < 10 ^ digits ->
  getSidebarWidth maxLine = 3 + (digits - 1)
  /\ getSidebarWidth 5 = 3
  /\ getSidebarWidth 42 = 4
  /\ getSidebarWidth 523 = 5.
Proof.
  intros Hdigits Hrange.
  split; [| repeat split].
  unfold getSidebarWidth.
  destruct (Z.eq_dec digits 1) as [-> | Hmore].
  - change (10 ^ (1 - 1)) with 1 in Hrange.
    change (10 ^ 1) with 10 in Hrange.
    rewrite Z.quot_small by lia. apply sidebarLoop_zero.
  - pose (k := Z.to_nat (digits - 2)).
    assert (Hk : digits = Z.of_nat (S (S k))) by lia.
    replace (digits - 1) with (Z.of_nat (S k)) in * by lia.
    rewrite Hk in Hrange.
    rewrite (sidebarLoop_digits k) by (apply quot10_bounds; exact Hrange).
    lia.
Qed.

(** The line number 523 has three digits. *)
Lemma getSidebarWidth_digits_witness :
  getSidebarWidth 523 = 3 + (3 - 1).
Proof.
  apply (getSidebarWidth_digits 523 3); [lia | split; [| reflexivity]].
  discriminate.
Defined.

(** The loop never lowers the width. *)
Lemma sidebarLoop_ge (width line_ : Z) : width <= sidebarLoop width line_.
Proof.
  funelim (sidebarLoop width line_); [lia |].
  match goal with IH : _ <= sidebarLoop _ _ |- _ => lia end.
Qed.

(** The sidebar is at least three columns wide: the padding that
    [addDivider] computes for its three carets is positive. *)
Lemma getSidebarWidth_ge_3 (maxLine : Z) : 3 <= getSidebarWidth maxLine.
Proof. unfold getSidebarWidth. apply sidebarLoop_ge. Qed.

(** ** The composer *)

(** C9. An error report with a valid primary origin, six references in one
    file and a seventh in a later file: [print] passes its check of the
    origin and runs the suppression step, whose behaviour is undefined on
    this report; [print] does not return. *)
Theorem print_undefined_with_valid_origin :
  let p := addSources 3 1 1 (addSources 2 1 6 (reportAt (at_ 1 1 0))) in
  @isValid plainCollaborators (origin p) = true
  /\ @print plainCollaborators p = Undefined.
Proof. vm_compute. split; reflexivity. Qed.

(** ** The per-file map stays ordered by file *)

Lemma map_find_keysAbove (f lo : Z) (m : fileCodeSourceMap) :
  keysAbove lo m = true -> f <= lo -> map_find f m = None.
Proof.
  revert lo. induction m as [| [k s] m IH]; intros lo; simpl;
    [reflexivity |].
  intros Habove Hle. apply andb_true_iff in Habove.
  destruct Habove as [Hlo Hrest]. apply Z.ltb_lt in Hlo.
  destruct (Z.eqb_spec f k); [lia |].
  apply (IH k); [exact Hrest | lia].
Qed.

Lemma map_update_keysAbove (f lo : Z) (g : codeSourceSet -> codeSourceSet)
    (m : fileCodeSourceMap) :
  keysAbove lo m = true -> lo < f -> keysAbove lo (map_update f g m) = true.
Proof.
  revert lo. induction m as [| [k s] m IH]; intros lo; simpl.
  - intros _ Hlt. rewrite (proj2 (Z.ltb_lt _ _) Hlt). reflexivity.
  - intros Habove Hlt. apply andb_true_iff in Habove.
    destruct Habove as [Hlo Hrest].
    destruct (Z.ltb_spec f k) as [Hfk | Hfk]; simpl.
    + rewrite (proj2 (Z.ltb_lt _ _) Hlt), (proj2 (Z.ltb_lt _ _) Hfk), Hrest.
      reflexivity.
    + destruct (Z.eqb_spec f k) as [Heq | Hne]; simpl; rewrite Hlo; simpl.
      * exact Hrest.
      * apply IH; [exact Hrest | lia].
Qed.

Lemma map_update_wellKeyed (f : Z) (g : codeSourceSet -> codeSourceSet)
    (m : fileCodeSourceMap) :
  wellKeyed m = true -> wellKeyed (map_update f g m) = true.
Proof.
  destruct m as [| [k s] m]; simpl; [reflexivity |].
  intros Hkeys.
  destruct (Z.ltb_spec f k) as [Hfk | Hfk]; simpl.
  - rewrite (proj2 (Z.ltb_lt _ _) Hfk), Hkeys. reflexivity.
  - destruct (Z.eqb_spec f k) as [Heq | Hne]; simpl; [exact Hkeys |].
    apply map_update_keysAbove; [exact Hkeys | lia].
Qed.

(** Reading a bucket with [operator[]] gives the bucket the map has, or an
    empty one. *)
Lemma bucket_map_update (f : Z) (m : fileCodeSourceMap) :
  wellKeyed m = true ->
  bucket f (map_update f (fun s => s) m) = bucket f m.
Proof.
  unfold bucket.
  assert (Hgen : forall lo, keysAbove lo m = true ->
            map_find f (map_update f (fun s => s) m) =
            Some match map_find f m with Some s => s | None => [] end).
  { induction m as [| [k s] m IH]; intros lo; simpl.
    - rewrite Z.eqb_refl. reflexivity.
    - intros Habove. apply andb_true_iff in Habove.
      destruct Habove as [Hlo Hrest].
      destruct (Z.ltb_spec f k) as [Hfk | Hfk]; simpl.
      + rewrite Z.eqb_refl.
        destruct (Z.eqb_spec f k); [lia |].
        rewrite (map_find_keysAbove f k m Hrest) by lia. reflexivity.
      + destruct (Z.eqb_spec f k) as [Heq | Hne]; simpl.
        * rewrite (proj2 (Z.eqb_eq _ _) Heq). reflexivity.
        * destruct (Z.eqb_spec f k); [contradiction |].
          apply (IH k). exact Hrest. }
  destruct m as [| [k s] m].
  - simpl. rewrite Z.eqb_refl. reflexivity.
  - intros Hkeys.
    rewrite (Hgen (k - 1)); [reflexivity |].
    simpl in *. rewrite Hkeys.
    rewrite (proj2 (Z.ltb_lt (k - 1) k)) by lia. reflexivity.
Qed.

(** The bucket that [addOriginFileSection] reads is the bucket of the
    origin's file in the per-file map of the report. *)
Lemma originFileSources_bucket (p : codePrinter_t) :
  wellKeyed (sources p) = true ->
  originFileSources p = bucket (file (origin p)) (sources p).
Proof. apply bucket_map_update. Qed.

(** The reports built by the collector have a per-file map ordered by
    file. *)
Lemma inserts_wellKeyed `{Collaborators} (ops : list insertion) :
  forall p, wellKeyed (sources p) = true ->
            wellKeyed (sources (inserts p ops)) = true.
Proof.
  induction ops as [| op ops IH]; intros p Hp; simpl; [exact Hp |].
  apply IH. destruct op as [origin_ message_ | source]; simpl; [exact Hp |].
  unfold withSource. destruct (_ && _); simpl; [exact Hp |].
  apply map_update_wellKeyed. exact Hp.
Qed.

(** ** The divider of the origin-file section *)

Lemma isDividerText_addDivider (sidebarWidth : Z) :
  isDividerText (addDivider "^^^" sidebarWidth) = true.
Proof.
  unfold addDivider.
  induction (Z.to_nat (sidebarWidth - Z.of_nat (String.length "^^^" / 2)))
    as [| n IH]; [reflexivity | exact IH].
Qed.

Section Divider.
Context `{Collaborators}.

Lemma scanSources_first (origin_ : fileOrigin) (fileSources : codeSourceSet) :
  forall maxLine originIsFirstSource,
    snd (fold_left (scanSource origin_) fileSources
                   (maxLine, originIsFirstSource))
    = originIsFirstSource && negb (existsb (precedes origin_) fileSources).
Proof.
  induction fileSources as [| source rest IH]; intros maxLine first; simpl.
  - rewrite andb_true_r. reflexivity.
  - rewrite IH.
    destruct (precedes origin_ source); simpl;
      [symmetry; apply andb_false_r | reflexivity].
Qed.

Lemma dividerEmitted_addOriginFileSection (p : codePrinter_t) :
  dividerEmitted (snd (addOriginFileSection p))
  = existsb (precedes (origin p)) (originFileSources p)
    && bool_of_size (originLineSources p)
    && bool_of_size (originFileSources p).
Proof.
  unfold addOriginFileSection.
  pose proof (scanSources_first (origin p) (originFileSources p)
                (line (position (origin p))) true) as Hfirst.
  unfold scanSources.
  destruct (fold_left _ _ _) as [maxLine originIsFirstSource].
  cbn [snd] in *. subst originIsFirstSource.
  rewrite andb_true_l, negb_involutive.
  unfold dividerEmitted.
  destruct (existsb (precedes (origin p)) (originFileSources p));
    destruct (bool_of_size (originLineSources p));
    destruct (bool_of_size (originFileSources p));
    destruct (up (origin p));
    cbn [andb negb]; rewrite ?existsb_app; cbn [existsb isDivider orb];
    rewrite ?isDividerText_addDivider; reflexivity.
Qed.

Lemma bool_of_size_true (s : codeSourceSet) :
  bool_of_size s = true <-> s <> [].
Proof.
  unfold bool_of_size, set_size.
  destruct s; simpl; split; intros K; try reflexivity; try discriminate.
  contradiction.
Qed.

(** C6, as the code has it.  The divider is emitted if and only if the
    origin file has references beyond the origin-line set, one of them is
    on another line than the primary origin and at a positive distance
    from it, and the origin-line set is not empty.  An origin file without
    references beyond the origin-line set gets no divider. *)
Theorem divider_emitted_iff (p : codePrinter_t) :
  (dividerEmitted (snd (addOriginFileSection p)) = true <->
   originFileSources p <> []
   /\ (exists source,
         In source (originFileSources p)
         /\ onSameLine (s_origin source) (origin p) = false
         /\ 0 < distanceTo (origin p) (s_origin source))
   /\ originLineSources p <> [])
  /\ (originFileSources p = [] ->
      dividerEmitted (snd (addOriginFileSection p)) = false).
Proof.
  rewrite dividerEmitted_addOriginFileSection.
  split.
  - rewrite !andb_true_iff, !bool_of_size_true, existsb_exists.
    unfold precedes.
    split.
    + intros [[[source [Hin Hpre]] Hline] Hfile].
      apply andb_true_iff in Hpre. destruct Hpre as [Hother Hdist].
      apply negb_true_iff in Hother.
      rewrite Z.gtb_ltb in Hdist. apply Z.ltb_lt in Hdist.
      split; [exact Hfile | split; [| exact Hline]].
      exists source. auto.
    + intros [Hfile [[source [Hin [Hother Hdist]]] Hline]].
      split; [split |]; auto.
      exists source. split; [exact Hin |].
      rewrite Hother, Z.gtb_ltb. simpl. apply Z.ltb_lt. exact Hdist.
  - intros ->. reflexivity.
Qed.
End Divider.

(** A report whose primary origin is on the second line of its file, with a
    reference on that line and one on the first line: the divider is
    emitted.  Without the two references, the bucket of the origin file is
    empty and there is no divider. *)
Lemma divider_emitted_iff_witness :
  dividerEmitted
    (snd (@addOriginFileSection plainCollaborators
            (addSources 1 1 1 (addSources 1 2 1 (reportAt (at_ 1 2 0))))))
  = true
  /\ dividerEmitted
       (snd (@addOriginFileSection plainCollaborators (reportAt (at_ 1 2 0))))
     = false.
Proof.
  split.
  - apply (@divider_emitted_iff plainCollaborators).
    split; [discriminate | split; [| discriminate]].
    eexists. split; [left; reflexivity | split; reflexivity].
  - apply (@divider_emitted_iff plainCollaborators). reflexivity.
Defined.

(** C6, as stated, fails: with a reference of the origin file before the
    primary origin and an empty origin-line set, the two conditions of the
    claim hold and no divider is emitted. *)
Lemma divider_needs_origin_line_sources :
  let p := addSources 1 1 1 (reportAt (at_ 1 2 0)) in
  originFileSources p <> []
  /\ (exists source,
        In source (originFileSources p)
        /\ @onSameLine plainCollaborators (s_origin source) (origin p) = false
        /\ 0 < @distanceTo plainCollaborators (origin p) (s_origin source))
  /\ dividerEmitted (snd (@addOriginFileSection plainCollaborators p))
     = false.
Proof.
  split; [discriminate | split; [| reflexivity]].
  eexists. split; [left; reflexivity | split; reflexivity].
Qed.

(** ** The collector *)

Lemma set_insert_In (x y : codeSource_t) (s : codeSourceSet) :
  In x (set_insert y s) -> x = y \/ In x s.
Proof.
  induction s as [| z s IH]; simpl.
  - intros [-> | []]. left; reflexivity.
  - destruct (operator_lt y z).
    + intros [-> | Hin]; [left; reflexivity | right; exact Hin].
    + destruct (operator_lt z y); [| intros Hin; right; exact Hin].
      intros [-> | Hin]; [right; left; reflexivity |].
      destruct (IH Hin) as [-> | Hs]; [left | right; right]; auto.
Qed.

(** A reference whose index no element has is inserted. *)
Lemma set_insert_new (x : codeSource_t) (s : codeSourceSet) :
  (forall y, In y s -> s_index y < s_index x) -> In x (set_insert x s).
Proof.
  destruct s as [| z s]; simpl; intros Hfresh; [left; reflexivity |].
  rewrite operator_lt_index; [left; reflexivity |].
  specialize (Hfresh z (or_introl eq_refl)). lia.
Qed.

Lemma map_elements_cons (k : Z) (s : codeSourceSet) (m : fileCodeSourceMap)
    (x : codeSource_t) :
  In x (map_elements ((k, s) :: m)) <-> In x s \/ In x (map_elements m).
Proof. unfold map_elements. simpl. apply in_app_iff. Qed.

Lemma map_update_In (x y : codeSource_t) (f : Z) (m : fileCodeSourceMap) :
  In x (map_elements (map_update f (set_insert y) m)) ->
  x = y \/ In x (map_elements m).
Proof.
  induction m as [| [k s] m IH]; simpl.
  - unfold map_elements. simpl. intros [-> | []]. left; reflexivity.
  - destruct (f <? k).
    + rewrite map_elements_cons. simpl.
      intros [[-> | []] | Hin]; [left; reflexivity | right; exact Hin].
    + destruct (f =? k); rewrite !map_elements_cons.
      * intros [Hin | Hin]; [| right; right; exact Hin].
        destruct (set_insert_In _ _ _ Hin); [left | right; left]; assumption.
      * intros [Hin | Hin]; [right; left; exact Hin |].
        destruct (IH Hin); [left | right; right]; assumption.
Qed.

Section Collector.
Context `{Collaborators}.

Lemma codePrinter_stamped (isError_ : bool) (code_ : string) :
  stamped (codePrinter isError_ code_).
Proof. repeat split; simpl; intros x []. Qed.

Lemma withSource_stamped (p : codePrinter_t) (source : codeSource_t) :
  stamped p -> stamped (withSource p source).
Proof.
  intros (Hline & Hmap & Hdisjoint). unfold withSource.
  destruct (_ && _); repeat split; simpl; intros x Hin.
  - destruct (set_insert_In _ _ _ Hin) as [-> | Hold]; simpl; [lia |].
    specialize (Hline x Hold). lia.
  - specialize (Hmap x Hin). lia.
  - intros Hin'.
    destruct (set_insert_In _ _ _ Hin) as [-> | Hold].
    + specialize (Hmap _ Hin'). simpl in Hmap. lia.
    + exact (Hdisjoint x Hold Hin').
  - specialize (Hline x Hin). lia.
  - destruct (map_update_In _ _ _ _ Hin) as [-> | Hold]; simpl; [lia |].
    specialize (Hmap x Hold). lia.
  - intros Hin'.
    destruct (map_update_In _ _ _ _ Hin') as [-> | Hold].
    + specialize (Hline _ Hin). simpl in Hline. lia.
    + exact (Hdisjoint x Hin Hold).
Qed.

Lemma inserts_stamped (ops : list insertion) :
  forall p, stamped p -> stamped (inserts p ops).
Proof.
  induction ops as [| op ops IH]; intros p Hp; simpl; [exact Hp |].
  apply IH. destruct op as [origin_ message_ | source]; simpl.
  - exact Hp.
  - apply withSource_stamped. exact Hp.
Qed.

Lemma withSource_origin (p : codePrinter_t) (source : codeSource_t) :
  origin (withSource p source) = origin p.
Proof. unfold withSource. destruct (_ && _); reflexivity. Qed.

Lemma withSource_routed (p : codePrinter_t) (source : codeSource_t) :
  routed p -> routed (withSource p source).
Proof.
  intros [Hline Hmap]. unfold routed. rewrite withSource_origin.
  unfold withSource.
  destruct (_ && _) eqn:Htest; split; simpl; intros x Hin; auto.
  - destruct (set_insert_In _ _ _ Hin) as [-> | Hold]; auto.
  - destruct (map_update_In _ _ _ _ Hin) as [-> | Hold]; auto.
Qed.

Lemma withSources_routed (added : list codeSource_t) :
  forall p, routed p -> routed (inserts p (List.map WithSource added)).
Proof.
  induction added as [| source added IH]; intros p Hp; simpl; [exact Hp |].
  apply IH, withSource_routed, Hp.
Qed.

Lemma withSources_origin (added : list codeSource_t) :
  forall p, origin (inserts p (List.map WithSource added)) = origin p.
Proof.
  induction added as [| source added IH]; intros p; simpl; [reflexivity |].
  rewrite IH. apply withSource_origin.
Qed.

(** C5.  After any sequence of insertions on a new report, the
    origin-line set and the per-file map share no reference; a reference
    added on the file and line of the primary origin is stamped, put in
    the origin-line set, and the per-file map stays as it is, without it;
    and when the primary origin is set first and references are added
    afterwards, the origin-line set holds references of the origin's file
    and line only, and the per-file map holds none of them. *)
Theorem origin_line_routing (isError_ : bool) (code_ : string)
    (ops : list insertion) :
  let p := inserts (codePrinter isError_ code_) ops in
  (forall x, In x (originLineSources p) ->
             ~ In x (map_elements (sources p)))
  /\ (forall source,
        file (s_origin source) = file (origin p) ->
        onSameLine (s_origin source) (origin p) = true ->
        let q := withSource p source in
        let x := withIndex source (sourceIndex p) in
        In x (originLineSources q)
        /\ sources q = sources p
        /\ ~ In x (map_elements (sources q)))
  /\ (forall origin_ message_ added,
        let r := inserts (withMessage (codePrinter isError_ code_)
                                      origin_ message_)
                         (List.map WithSource added) in
        (forall x, In x (originLineSources r) ->
                   file (s_origin x) = file origin_
                   /\ onSameLine (s_origin x) origin_ = true)
        /\ (forall x, In x (map_elements (sources r)) ->
                      ~ (file (s_origin x) = file origin_
                         /\ onSameLine (s_origin x) origin_ = true))).
Proof.
  intros p.
  assert (Hp : stamped p)
    by (apply inserts_stamped, codePrinter_stamped).
  destruct Hp as (Hline & Hmap & Hdisjoint).
  split; [exact Hdisjoint | split].
  - intros source Hfile Hsame q x.
    assert (Hq : q = {| isError := isError p; code := code p;
                        origin := origin p; message := message p;
                        originLineSources :=
                          set_insert x (originLineSources p);
                        sources := sources p;
                        sourceIndex := sourceIndex p + 1 |}).
    { unfold q, withSource.
      rewrite Hsame, (proj2 (Z.eqb_eq _ _) Hfile). reflexivity. }
    rewrite Hq. simpl.
    split; [| split; [reflexivity |]].
    + apply set_insert_new. exact Hline.
    + intros Hin. specialize (Hmap x Hin). simpl in Hmap. lia.
  - intros origin_ message_ added r.
    assert (Hr : routed r).
    { apply withSources_routed. split; simpl; intros x []. }
    destruct Hr as [Hrline Hrmap].
    unfold r in Hrline, Hrmap. rewrite withSources_origin in Hrline, Hrmap.
    simpl in Hrline, Hrmap. fold r in Hrline, Hrmap.
    unfold onOriginLine in Hrline, Hrmap.
    split; intros x Hin.
    + specialize (Hrline x Hin). apply andb_true_iff in Hrline.
      destruct Hrline as [Hfile Hsame]. apply Z.eqb_eq in Hfile. auto.
    + specialize (Hrmap x Hin). intros [Hfile Hsame].
      rewrite Hsame, (proj2 (Z.eqb_eq _ _) Hfile) in Hrmap. discriminate.
Qed.
End Collector.

(** A primary origin, a reference in another file, and then a reference on
    the line of the primary origin: it is stamped with the index 1 and
    lands in the origin-line set. *)
Lemma origin_line_routing_witness :
  let p := @inserts plainCollaborators
             (@codePrinter plainCollaborators true "E100")
             [WithMessage (at_ 1 1 0) "message";
              WithSource (codeSource (at_ 2 1 0) "")] in
  let source := codeSource (at_ 1 1 4) "here" in
  let q := @withSource plainCollaborators p source in
  In (withIndex source 1) (originLineSources q)
  /\ sources q = sources p
  /\ ~ In (withIndex source 1) (map_elements (sources q)).
Proof.
  intros p source q.
  exact (proj1 (proj2 (@origin_line_routing plainCollaborators true "E100"
                         [WithMessage (at_ 1 1 0) "message";
                          WithSource (codeSource (at_ 2 1 0) "")]))
               source eq_refl eq_refl).
Defined.

(** C5, as stated, fails on a sequence that sets the primary origin after a
    reference was added: the reference was put in the per-file map, and
    [withMessage] leaves it there, on the file and line of the primary
    origin and outside the origin-line set. *)
Lemma origin_line_routing_after_withMessage :
  let p := @inserts plainCollaborators
             (@codePrinter plainCollaborators true "E100")
             [WithSource (codeSource (at_ 1 1 4) "here");
              WithMessage (at_ 1 1 0) "message"] in
  let x := withIndex (codeSource (at_ 1 1 4) "here") 0 in
  file (s_origin x) = file (origin p)
  /\ @onSameLine plainCollaborators (s_origin x) (origin p) = true
  /\ In x (map_elements (sources p))
  /\ ~ In x (originLineSources p).
Proof.
  split; [reflexivity | split; [reflexivity | split]].
  - left. reflexivity.
  - intros [].
Qed.

(** * Further properties of the code *)

(** ** The comparison operator, in general *)

(** The operator is symmetric and irreflexive: it answers [false] exactly
    on two references with the same file, start offset and index, and the
    same in both directions.  Messages play no part in it. *)
Theorem operator_lt_symmetric (a b : codeSource_t) :
  operator_lt a b = operator_lt b a
  /\ operator_lt a a = false
  /\ (operator_lt a b = false <-> sortKey a = sortKey b)
  /\ (forall message_a message_b,
        operator_lt
          {| s_index := s_index a; s_origin := s_origin a;
             s_message := message_a |}
          {| s_index := s_index b; s_origin := s_origin b;
             s_message := message_b |}
        = operator_lt a b).
Proof.
  assert (Hfalse : forall x y,
             operator_lt x y = false <-> sortKey x = sortKey y).
  { intros x y. pose proof (operator_lt_true_iff x y) as Hiff.
    destruct (operator_lt x y); split; intros K;
      try reflexivity; try discriminate.
    - exfalso. apply (proj1 Hiff eq_refl). exact K.
    - destruct (Z.eq_dec (file (s_origin x)) (file (s_origin y)));
        destruct (Z.eq_dec (start (position (s_origin x)))
                           (start (position (s_origin y))));
        destruct (Z.eq_dec (s_index x) (s_index y));
        try (unfold sortKey; congruence);
        assert (Habs : false = true)
          by (apply (proj2 Hiff); unfold sortKey; intros Q; injection Q;
              intros; contradiction);
        discriminate Habs. }
  repeat split.
  - destruct (operator_lt b a) eqn:Hba.
    + apply operator_lt_true_iff. apply operator_lt_true_iff in Hba.
      congruence.
    + apply Hfalse. apply Hfalse in Hba. congruence.
  - apply Hfalse. reflexivity.
  - apply Hfalse.
  - apply Hfalse.
Qed.

(** ** The collector, in general *)

Lemma set_insert_fresh (x : codeSource_t) (s : codeSourceSet) :
  (forall y, In y s -> s_index y < s_index x) ->
  set_insert x s = x :: s.
Proof.
  destruct s as [| z s]; simpl; intros Hfresh; [reflexivity |].
  rewrite operator_lt_index; [reflexivity |].
  specialize (Hfresh z (or_introl eq_refl)). lia.
Qed.

Lemma map_update_insert_fresh (x : codeSource_t) (f : Z)
    (m : fileCodeSourceMap) :
  (forall y, In y (map_elements m) -> s_index y < s_index x) ->
  Permutation (map_elements (map_update f (set_insert x) m))
              (x :: map_elements m).
Proof.
  induction m as [| [k s] m IH]; intros Hfresh; simpl.
  - apply Permutation_refl.
  - destruct (f <? k); [apply Permutation_refl |].
    assert (Hs : forall y, In y s -> s_index y < s_index x).
    { intros y Hy. apply Hfresh. apply map_elements_cons. left; exact Hy. }
    assert (Hm : forall y, In y (map_elements m) -> s_index y < s_index x).
    { intros y Hy. apply Hfresh. apply map_elements_cons. right; exact Hy. }
    destruct (f =? k); unfold map_elements; simpl.
    + rewrite (set_insert_fresh x s Hs). apply Permutation_refl.
    + eapply Permutation_trans;
        [apply Permutation_app_head, IH, Hm | ].
      apply Permutation_sym, Permutation_middle.
Qed.

Lemma sourceCount_elements (m : fileCodeSourceMap) :
  sourceCount m = Z.of_nat (List.length (map_elements m)).
Proof.
  induction m as [| [k s] m IH]; simpl; [reflexivity |].
  unfold map_elements in *. simpl. rewrite length_app, IH.
  unfold set_size. lia.
Qed.

Lemma indicesBelow_succ (n : Z) :
  0 <= n ->
  Permutation (n :: indicesBelow n) (indicesBelow (n + 1)).
Proof.
  intros Hn. unfold indicesBelow.
  replace (Z.to_nat (n + 1)) with (S (Z.to_nat n)) by lia.
  rewrite seq_S, map_app. simpl.
  rewrite Z2Nat.id by exact Hn.
  apply Permutation_cons_append.
Qed.

Lemma withSource_indices `{Collaborators} (p : codePrinter_t)
    (source : codeSource_t) :
  stamped p ->
  Permutation (List.map s_index (allSources (withSource p source)))
              (sourceIndex p :: List.map s_index (allSources p))
  /\ sourceIndex (withSource p source) = sourceIndex p + 1.
Proof.
  intros (Hline & Hmap & _). unfold withSource, allSources.
  destruct (_ && _); simpl; (split; [| reflexivity]).
  - rewrite set_insert_fresh by exact Hline. apply Permutation_refl.
  - change (sourceIndex p :: List.map s_index
                               (originLineSources p ++ map_elements (sources p)))
      with (List.map s_index
              (withIndex source (sourceIndex p)
               :: originLineSources p ++ map_elements (sources p))).
    apply Permutation_map.
    eapply Permutation_trans;
      [apply Permutation_app_head, map_update_insert_fresh, Hmap |].
    apply Permutation_sym, Permutation_middle.
Qed.

Lemma inserts_indices `{Collaborators} (ops : list insertion) :
  forall p,
    stamped p -> 0 <= sourceIndex p ->
    Permutation (List.map s_index (allSources p))
                (indicesBelow (sourceIndex p)) ->
    Permutation (List.map s_index (allSources (inserts p ops)))
                (indicesBelow (sourceIndex (inserts p ops)))
    /\ sourceIndex (inserts p ops)
       = sourceIndex p + Z.of_nat (withSourceCount ops).
Proof.
  induction ops as [| [origin_ message_ | source] ops IH];
    intros p Hstamped Hpos Hperm.
  - simpl. split; [exact Hperm | lia].
  - apply (IH (withMessage p origin_ message_)); assumption.
  - destruct (withSource_indices p source Hstamped) as [Hstep Hnext].
    destruct (IH (withSource p source)) as [Hall Hcount].
    + apply withSource_stamped. exact Hstamped.
    + lia.
    + rewrite Hnext.
      eapply Permutation_trans; [exact Hstep |].
      eapply Permutation_trans;
        [apply perm_skip, Hperm | apply indicesBelow_succ, Hpos].
    + split; [exact Hall |].
      simpl withSourceCount. change (inserts p (WithSource source :: ops))
        with (inserts (withSource p source) ops).
      rewrite Hcount, Hnext. lia.
Qed.

(** After any sequence of insertions on a new report, the references it
    holds carry the indices 0, 1, ... up to the counter, each of them once:
    every [withSource] call has stored one reference, none was dropped as a
    duplicate, and the counter is the number of calls. *)
Theorem collector_indices `{Collaborators} (isError_ : bool) (code_ : string)
    (ops : list insertion) :
  let p := inserts (codePrinter isError_ code_) ops in
  Permutation (List.map s_index (allSources p))
              (indicesBelow (sourceIndex p))
  /\ sourceIndex p = Z.of_nat (withSourceCount ops)
  /\ set_size (originLineSources p) + sourceCount (sources p)
     = sourceIndex p.
Proof.
  intros p.
  destruct (inserts_indices ops (codePrinter isError_ code_)
              (codePrinter_stamped isError_ code_)
              ltac:(simpl; lia) (Permutation_refl _)) as [Hperm Hcount].
  fold p in Hperm, Hcount. simpl in Hcount.
  split; [exact Hperm | split; [exact Hcount |]].
  apply Permutation_length in Hperm.
  unfold indicesBelow, allSources in Hperm.
  rewrite !length_map, length_seq, length_app in Hperm.
  rewrite sourceCount_elements. unfold set_size. lia.
Qed.

Lemma map_find_update_other (f g : Z) (h : codeSourceSet -> codeSourceSet)
    (m : fileCodeSourceMap) :
  g <> f -> map_find g (map_update f h m) = map_find g m.
Proof.
  intros Hne. induction m as [| [k s] m IH]; simpl.
  - destruct (Z.eqb_spec g f); [contradiction | reflexivity].
  - destruct (Z.ltb_spec f k); simpl.
    + destruct (Z.eqb_spec g f); [contradiction | reflexivity].
    + destruct (Z.eqb_spec f k) as [-> | Hfk]; simpl.
      * destruct (Z.eqb_spec g k); [contradiction | reflexivity].
      * rewrite IH. reflexivity.
Qed.

Lemma map_find_update_same (f : Z) (h : codeSourceSet -> codeSourceSet)
    (m : fileCodeSourceMap) :
  wellKeyed m = true ->
  map_find f (map_update f h m) = Some (h (bucket f m)).
Proof.
  unfold bucket.
  assert (Hgen : forall lo, keysAbove lo m = true ->
            map_find f (map_update f h m) =
            Some (h match map_find f m with Some s => s | None => [] end)).
  { induction m as [| [k s] m IH]; intros lo; simpl.
    - rewrite Z.eqb_refl. reflexivity.
    - intros Habove. apply andb_true_iff in Habove.
      destruct Habove as [Hlo Hrest].
      destruct (Z.ltb_spec f k) as [Hfk | Hfk]; simpl.
      + rewrite Z.eqb_refl.
        destruct (Z.eqb_spec f k); [lia |].
        rewrite (map_find_keysAbove f k m Hrest) by lia. reflexivity.
      + destruct (Z.eqb_spec f k) as [Heq | Hne]; simpl.
        * rewrite (proj2 (Z.eqb_eq _ _) Heq). reflexivity.
        * destruct (Z.eqb_spec f k); [contradiction |].
          apply (IH k). exact Hrest. }
  destruct m as [| [k s] m].
  - simpl. rewrite Z.eqb_refl. reflexivity.
  - intros Hkeys. apply (Hgen (k - 1)).
    simpl in *. rewrite Hkeys.
    rewrite (proj2 (Z.ltb_lt (k - 1) k)) by lia. reflexivity.
Qed.

(** After any sequence of insertions on a new report, a reference that is
    not on the file and line of the primary origin is stamped with the
    counter and put in the bucket of its own file, which is created when the
    map has none; the origin-line set and the buckets of the other files
    stay as they are. *)
Theorem withSource_other_line `{Collaborators} (isError_ : bool)
    (code_ : string) (ops : list insertion) (source : codeSource_t) :
  let p := inserts (codePrinter isError_ code_) ops in
  let q := withSource p source in
  let x := withIndex source (sourceIndex p) in
  onOriginLine (origin p) source = false ->
  bucket (file (s_origin source)) (sources q)
  = set_insert x (bucket (file (s_origin source)) (sources p))
  /\ In x (bucket (file (s_origin source)) (sources q))
  /\ originLineSources q = originLineSources p
  /\ (forall g, g <> file (s_origin source) ->
                map_find g (sources q) = map_find g (sources p))
  /\ sourceIndex q = sourceIndex p + 1.
Proof.
  intros p q x Hother.
  assert (Hstamped : stamped p)
    by (apply inserts_stamped, codePrinter_stamped).
  assert (Hkeys : wellKeyed (sources p) = true)
    by (apply inserts_wellKeyed; reflexivity).
  assert (Hq : q = {| isError := isError p; code := code p;
                      origin := origin p; message := message p;
                      originLineSources := originLineSources p;
                      sources :=
                        map_update (file (s_origin source)) (set_insert x)
                                   (sources p);
                      sourceIndex := sourceIndex p + 1 |}).
  { unfold q, withSource. unfold onOriginLine in Hother.
    rewrite Hother. reflexivity. }
  rewrite Hq. simpl.
  assert (Hbucket :
            bucket (file (s_origin source))
                   (map_update (file (s_origin source)) (set_insert x)
                               (sources p))
            = set_insert x (bucket (file (s_origin source)) (sources p))).
  { unfold bucket at 1. rewrite map_find_update_same by exact Hkeys.
    reflexivity. }
  rewrite Hbucket.
  split; [reflexivity | split; [| split; [reflexivity | split]]].
  - apply set_insert_new. intros y Hy.
    destruct Hstamped as (_ & Hmap & _). simpl.
    apply Hmap.
    unfold bucket in Hy.
    destruct (map_find (file (s_origin source)) (sources p)) as [s |] eqn:Hs;
      [| destruct Hy].
    clear - Hs Hy. induction (sources p) as [| [k s'] m IH]; simpl in Hs;
      [discriminate |].
    apply map_elements_cons.
    destruct (file (s_origin source) =? k).
    + injection Hs as ->. left; exact Hy.
    + right. apply IH. exact Hs.
  - intros g Hg. apply map_find_update_other. exact Hg.
  - reflexivity.
Qed.

(** A reference of another file, added to a report that has a primary
    origin and a reference already. *)
Lemma withSource_other_line_witness :
  let p := @inserts plainCollaborators
             (@codePrinter plainCollaborators true "E100")
             [WithMessage (at_ 1 1 0) "message";
              WithSource (codeSource (at_ 2 1 0) "")] in
  let source := codeSource (at_ 2 3 4) "there" in
  let q := @withSource plainCollaborators p source in
  In (withIndex source 1) (bucket 2 (sources q))
  /\ originLineSources q = originLineSources p.
Proof.
  intros p source q.
  destruct (@withSource_other_line plainCollaborators true "E100"
              [WithMessage (at_ 1 1 0) "message";
               WithSource (codeSource (at_ 2 1 0) "")]
              source eq_refl) as (_ & Hin & Hline & _).
  split; [exact Hin | exact Hline].
Defined.

(** [withMessage] does not route again what the report holds.  A reference
    added while it was not on the line of the primary origin stays in the
    per-file map when the primary origin is then set on its line: the report
    then has, in its per-file map, a reference of the file and line of its
    primary origin. *)
Theorem withMessage_keeps_routing `{Collaborators} (isError_ : bool)
    (code_ : string) (ops : list insertion) (source : codeSource_t)
    (origin_ : fileOrigin) (message_ : string) :
  let p := inserts (codePrinter isError_ code_) ops in
  let q := withMessage (withSource p source) origin_ message_ in
  let x := withIndex source (sourceIndex p) in
  onOriginLine (origin p) source = false ->
  onOriginLine origin_ source = true ->
  In x (map_elements (sources q))
  /\ ~ In x (originLineSources q)
  /\ onOriginLine (origin q) x = true
  /\ ~ routed q.
Proof.
  intros p q x Hother Hnow.
  assert (Hstamped : stamped p)
    by (apply inserts_stamped, codePrinter_stamped).
  destruct Hstamped as (Hline & Hmap & _).
  assert (Hq : sources q = map_update (file (s_origin source)) (set_insert x)
                                      (sources p)
               /\ originLineSources q = originLineSources p
               /\ origin q = origin_).
  { unfold q, withSource. unfold onOriginLine in Hother.
    rewrite Hother. simpl. auto. }
  destruct Hq as (Hsources & Hlines & Horigin).
  assert (Hin : In x (map_elements (sources q))).
  { rewrite Hsources.
    apply (Permutation_in x
             (Permutation_sym (map_update_insert_fresh x _ (sources p) Hmap))).
    left; reflexivity. }
  assert (Hon : onOriginLine (origin q) x = true)
    by (rewrite Horigin; exact Hnow).
  split; [exact Hin | split; [| split; [exact Hon |]]].
  - rewrite Hlines. intros Hx. specialize (Hline x Hx). simpl in Hline. lia.
  - intros [_ Hrouted]. specialize (Hrouted x Hin).
    rewrite Hon in Hrouted. discriminate.
Qed.

(** A reference is added to a new report, and the primary origin is then
    set on it. *)
Lemma withMessage_keeps_routing_witness :
  let source := codeSource (at_ 1 1 0) "" in
  let q := withMessage
             (@withSource plainCollaborators
                (@codePrinter plainCollaborators true "E100") source)
             (at_ 1 1 0) "message" in
  In (withIndex source 0) (map_elements (sources q))
  /\ ~ In (withIndex source 0) (originLineSources q).
Proof.
  intros source q.
  destruct (@withMessage_keeps_routing plainCollaborators true "E100" []
              source (at_ 1 1 0) "message" eq_refl eq_refl)
    as (Hin & Hnot & _).
  split; [exact Hin | exact Hnot].
Defined.

(** ** The suppression step, in general *)

Lemma supressLoop_elements (m : fileCodeSourceMap) :
  forall sourcesAvailable count kept n,
    0 <= sourcesAvailable ->
    supressLoop sourcesAvailable count m = Some (kept, n) ->
    map_elements kept
    = firstn (Z.to_nat sourcesAvailable) (map_elements m).
Proof.
  induction m as [| [f s] m IH]; intros a c kept n Ha Hsome; simpl in Hsome.
  - injection Hsome as <- _. rewrite firstn_nil. reflexivity.
  - pose proof (set_size_nonneg s) as Hs. unfold set_size in *.
    change (map_elements ((f, s) :: m)) with (s ++ map_elements m).
    rewrite firstn_app.
    destruct (Z.geb_spec a (Z.of_nat (List.length s))) as [Hge | Hlt].
    + destruct (supressLoop (a - Z.of_nat (List.length s)) c m)
        as [[rest' k] |] eqn:Hrest; [| discriminate].
      injection Hsome as <- _.
      change (map_elements ((f, s) :: rest')) with (s ++ map_elements rest').
      rewrite (IH (a - Z.of_nat (List.length s)) c rest' k ltac:(lia) Hrest).
      rewrite (@firstn_all2 _ (Z.to_nat a) s) by lia.
      replace (Z.to_nat (a - Z.of_nat (List.length s)))
        with (Z.to_nat a - List.length s)%nat by lia.
      reflexivity.
    + destruct (Z.ltb_spec a (Z.of_nat (List.length s))); [| lia].
      destruct m; [| discriminate].
      injection Hsome as <- _.
      unfold map_elements. simpl.
      replace (Z.to_nat a - List.length s)%nat with O by lia.
      simpl. rewrite !app_nil_r. reflexivity.
Qed.

Lemma supressLoop_keys (m : fileCodeSourceMap) :
  forall sourcesAvailable count kept n,
    supressLoop sourcesAvailable count m = Some (kept, n) ->
    List.map fst kept = List.map fst m.
Proof.
  induction m as [| [f s] m IH]; intros a c kept n Hsome; simpl in Hsome.
  - injection Hsome as <- _. reflexivity.
  - destruct (a >=? set_size s).
    + destruct (supressLoop (a - set_size s) c m) as [[rest' k] |] eqn:Hrest;
        [| discriminate].
      injection Hsome as <- _. simpl. rewrite (IH _ _ _ _ Hrest).
      reflexivity.
    + destruct (a <? set_size s).
      * destruct m; [| discriminate]. injection Hsome as <- _. reflexivity.
      * destruct (supressLoop a (c + set_size s) m) as [[rest' k] |]
          eqn:Hrest; [| discriminate].
        injection Hsome as <- _. simpl. rewrite (IH _ _ _ _ Hrest).
        reflexivity.
Qed.

Lemma keysAbove_keys (m1 : fileCodeSourceMap) :
  forall lo m2,
    List.map fst m1 = List.map fst m2 ->
    keysAbove lo m1 = keysAbove lo m2.
Proof.
  induction m1 as [| [k1 s1] m1 IH]; intros lo [| [k2 s2] m2] Hkeys;
    simpl in *; try discriminate; [reflexivity |].
  injection Hkeys as -> Hrest. rewrite (IH k2 m2 Hrest). reflexivity.
Qed.

Lemma supressLoop_none (m : fileCodeSourceMap) :
  forall sourcesAvailable count,
    0 <= sourcesAvailable ->
    supressLoop sourcesAvailable count m = None ->
    exists pre f fileSources next post,
      m = pre ++ (f, fileSources) :: next :: post
      /\ sourceCount pre <= sourcesAvailable
         < sourceCount pre + set_size fileSources.
Proof.
  induction m as [| [f s] m IH]; intros a c Ha Hnone; simpl in Hnone;
    [discriminate |].
  pose proof (set_size_nonneg s) as Hs.
  destruct (Z.geb_spec a (set_size s)) as [Hge | Hlt].
  - destruct (supressLoop (a - set_size s) c m) as [[rest' k] |] eqn:Hrest;
      [discriminate |].
    destruct (IH (a - set_size s) c ltac:(lia) Hrest)
      as (pre & g & b & next & post & -> & Hrange).
    exists ((f, s) :: pre), g, b, next, post.
    split; [reflexivity |]. cbn [sourceCount]. lia.
  - destruct (Z.ltb_spec a (set_size s)); [| lia].
    destruct m as [| next post]; [discriminate |].
    exists [], f, s, next, post. split; [reflexivity |]. simpl. lia.
Qed.

(** A report whose per-file map holds no more references than the budget
    goes through the suppression step unchanged, and the step returns 0. *)
Theorem supressSources_within_budget (p : codePrinter_t) :
  sourceCount (sources p) <= DEFAULT_MAX_ERRORS_DISPLAYED ->
  supressSources p = Some (p, 0).
Proof. apply supressSources_fits. Qed.

Lemma supressSources_within_budget_witness :
  let p := addSources 3 1 2 (addSources 2 1 3 (reportAt (at_ 1 1 0))) in
  supressSources p = Some (p, 0).
Proof.
  intros p. apply supressSources_within_budget.
  vm_compute. discriminate.
Defined.

(** When the suppression step returns, its count is not negative, and it
    is positive exactly when the per-file map held more references than the
    budget. *)
Theorem supressSources_count_sign (p q : codePrinter_t) (n : Z) :
  supressSources p = Some (q, n) ->
  0 <= n
  /\ (0 < n <-> DEFAULT_MAX_ERRORS_DISPLAYED < sourceCount (sources p)).
Proof.
  intros Hsome.
  destruct (supressSources_some p q n Hsome) as (Hloop & _).
  destruct (supressLoop_result (sources p) DEFAULT_MAX_ERRORS_DISPLAYED 0
              (sources q) n
              ltac:(unfold DEFAULT_MAX_ERRORS_DISPLAYED; lia) Hloop)
    as [(Hfit & _ & ->) | (Hover & _ & ->)]; lia.
Qed.

Lemma supressSources_count_sign_witness :
  let p := addSources 2 1 7 (reportAt (at_ 1 1 0)) in
  exists q n, supressSources p = Some (q, n) /\ 0 < n.
Proof.
  intros p. eexists. eexists. split; [reflexivity |].
  refine (proj2 (proj2 (supressSources_count_sign p _ _ eq_refl)) _).
  vm_compute. reflexivity.
Defined.

(** When the suppression step returns, it has kept the first five
    references of the per-file map, in the order of its iteration (file
    after file, each bucket in its own order), and dropped those that
    followed. *)
Theorem supressSources_keeps_first (p q : codePrinter_t) (n : Z) :
  supressSources p = Some (q, n) ->
  map_elements (sources q)
  = firstn (Z.to_nat DEFAULT_MAX_ERRORS_DISPLAYED) (map_elements (sources p)).
Proof.
  intros Hsome.
  destruct (supressSources_some p q n Hsome) as (Hloop & _).
  apply (supressLoop_elements (sources p) DEFAULT_MAX_ERRORS_DISPLAYED 0
           (sources q) n); [| exact Hloop].
  unfold DEFAULT_MAX_ERRORS_DISPLAYED. lia.
Qed.

Lemma supressSources_keeps_first_witness :
  let p := addSources 2 1 7 (reportAt (at_ 1 1 0)) in
  exists q n,
    supressSources p = Some (q, n)
    /\ map_elements (sources q) = firstn 5 (map_elements (sources p)).
Proof.
  intros p. eexists. eexists. split; [reflexivity |].
  exact (supressSources_keeps_first p _ _ eq_refl).
Defined.

(** When the last bucket of the map goes over the budget that the buckets
    before it have left, the suppression step returns: it cuts that bucket
    down to what is left of the budget, and the count it returns is the
    number of references that the bucket, and so the map, has lost. *)
Theorem supressSources_returns_bucket_excess
    (p : codePrinter_t) (pre : fileCodeSourceMap) (f : Z)
    (fileSources : codeSourceSet) :
  sources p = pre ++ [(f, fileSources)] ->
  sourceCount pre <= DEFAULT_MAX_ERRORS_DISPLAYED
    < sourceCount pre + set_size fileSources ->
  exists q,
    supressSources p
    = Some (q, sourceCount pre + set_size fileSources
               - DEFAULT_MAX_ERRORS_DISPLAYED)
    /\ sources q
       = pre ++ [(f, firstn (Z.to_nat (DEFAULT_MAX_ERRORS_DISPLAYED
                                       - sourceCount pre))
                            fileSources)]
    /\ sourceCount (sources p) - sourceCount (sources q)
       = sourceCount pre + set_size fileSources
         - DEFAULT_MAX_ERRORS_DISPLAYED.
Proof.
  intros Hsources Hover.
  pose proof (sourceCount_nonneg pre) as Hpre.
  assert (Hloop : supressLoop DEFAULT_MAX_ERRORS_DISPLAYED 0 (sources p)
                  = Some (pre ++ [(f, firstn
                                        (Z.to_nat (DEFAULT_MAX_ERRORS_DISPLAYED
                                                   - sourceCount pre))
                                        fileSources)],
                          set_size fileSources
                          - (DEFAULT_MAX_ERRORS_DISPLAYED - sourceCount pre))).
  { rewrite Hsources, supressLoop_prefix by lia.
    remember (DEFAULT_MAX_ERRORS_DISPLAYED - sourceCount pre) as left_.
    cbn [supressLoop].
    destruct (Z.geb_spec left_ (set_size fileSources)); [lia |].
    destruct (Z.ltb_spec left_ (set_size fileSources)); [| lia].
    reflexivity. }
  unfold supressSources. rewrite Hloop.
  eexists. split; [| split].
  - f_equal. f_equal. lia.
  - reflexivity.
  - cbn [sources]. rewrite Hsources, !sourceCount_app. cbn [sourceCount].
    rewrite set_size_firstn by lia. lia.
Qed.

(** Three references in one file and four in a later one: the step returns
    the two references that the second bucket loses. *)
Lemma supressSources_returns_bucket_excess_witness :
  let p := addSources 3 1 4 (addSources 2 1 3 (reportAt (at_ 1 1 0))) in
  exists q,
    supressSources p = Some (q, 3 + 4 - DEFAULT_MAX_ERRORS_DISPLAYED).
Proof.
  intros p.
  destruct (supressSources_returns_bucket_excess p
              [(2, bucket 2 (sources p))] 3 (bucket 3 (sources p)) eq_refl)
    as (q & Hsome & _).
  - vm_compute. split; [discriminate | reflexivity].
  - exists q. exact Hsome.
Defined.

(** When the suppression step returns, the per-file map has the files it
    had, in their order: no bucket was created, moved or removed (the last
    one may have been cut down, to nothing when the budget was used up
    before it), and a map ordered by file is still ordered. *)
Theorem supressSources_keeps_file_order (p q : codePrinter_t) (n : Z) :
  supressSources p = Some (q, n) ->
  List.map fst (sources q) = List.map fst (sources p)
  /\ (wellKeyed (sources p) = true -> wellKeyed (sources q) = true).
Proof.
  intros Hsome.
  destruct (supressSources_some p q n Hsome) as (Hloop & _).
  pose proof (supressLoop_keys _ _ _ _ _ Hloop) as Hkeys.
  split; [exact Hkeys |].
  destruct (sources p) as [| [k s] m], (sources q) as [| [k' s'] m'];
    simpl in Hkeys; try discriminate; [reflexivity |].
  injection Hkeys as -> Hrest. cbn [wellKeyed].
  rewrite (keysAbove_keys m' k m Hrest). auto.
Qed.

Lemma supressSources_keeps_file_order_witness :
  let p := addSources 3 1 4 (addSources 2 1 3 (reportAt (at_ 1 1 0))) in
  exists q n,
    supressSources p = Some (q, n)
    /\ List.map fst (sources q) = [2; 3]
    /\ wellKeyed (sources q) = true.
Proof.
  intros p. eexists. eexists. split; [reflexivity |].
  destruct (supressSources_keeps_file_order p _ _ eq_refl) as [Hkeys Hwell].
  split; [exact Hkeys | apply Hwell; reflexivity].
Defined.

(** The suppression step has no defined behaviour exactly on the reports
    where a bucket of the per-file map goes over the budget that the buckets
    before it have left, and another bucket follows it: the erase then
    invalidates the iterator that the loop goes on with. *)
Theorem supressSources_undefined_iff (p : codePrinter_t) :
  supressSources p = None <->
  exists pre f fileSources next post,
    sources p = pre ++ (f, fileSources) :: next :: post
    /\ sourceCount pre <= DEFAULT_MAX_ERRORS_DISPLAYED
       < sourceCount pre + set_size fileSources.
Proof.
  split.
  - intros Hnone. unfold supressSources in Hnone.
    destruct (supressLoop DEFAULT_MAX_ERRORS_DISPLAYED 0 (sources p))
      as [[kept n] |] eqn:Hloop; [discriminate |].
    apply (supressLoop_none (sources p) DEFAULT_MAX_ERRORS_DISPLAYED 0);
      [unfold DEFAULT_MAX_ERRORS_DISPLAYED; lia | exact Hloop].
  - intros (pre & f & b & next & post & Hsources & Hrange).
    unfold supressSources.
    rewrite Hsources, supressLoop_prefix by lia.
    remember (DEFAULT_MAX_ERRORS_DISPLAYED - sourceCount pre) as left_.
    cbn [supressLoop].
    destruct (Z.geb_spec left_ (set_size b)); [lia |].
    destruct (Z.ltb_spec left_ (set_size b)); [reflexivity | lia].
Qed.

(** When the suppression step returns, a second run on the report it has
    left returns as well, changes nothing in that report and counts
    nothing. *)
Theorem supressSources_again (p q : codePrinter_t) (n : Z) :
  supressSources p = Some (q, n) ->
  supressSources q = Some (q, 0).
Proof.
  intros Hsome.
  destruct (supressSources_some p q n Hsome) as (Hloop & _).
  apply supressSources_fits.
  apply (supressLoop_count (sources p) (sources q)
           DEFAULT_MAX_ERRORS_DISPLAYED 0 n); [| exact Hloop].
  unfold DEFAULT_MAX_ERRORS_DISPLAYED. lia.
Qed.

Lemma supressSources_again_witness :
  let p := addSources 2 1 7 (reportAt (at_ 1 1 0)) in
  exists q,
    supressSources p = Some (q, 2) /\ supressSources q = Some (q, 0).
Proof.
  intros p. eexists. split; [reflexivity |].
  exact (supressSources_again p _ 2 eq_refl).
Defined.

(** ** The sidebar, in general *)

Lemma sidebarLoop_opp (width line_ : Z) :
  sidebarLoop width (- line_) = sidebarLoop width line_.
Proof.
  funelim (sidebarLoop width line_).
  - subst. apply sidebarLoop_zero.
  - rewrite (sidebarLoop_step width (- line_)) by lia.
    rewrite Z.quot_opp_l by lia.
    match goal with
    | IH : sidebarLoop _ (- _) = sidebarLoop _ _ |- _ => rewrite IH
    end.
    reflexivity.
Qed.

Lemma sidebarLoop_upper (k : nat) :
  forall width line_,
    0 <= line_ < 10 ^ Z.of_nat k ->
    sidebarLoop width line_ <= width + Z.of_nat k.
Proof.
  induction k as [| k IH]; intros width line_ Hrange.
  - change (10 ^ Z.of_nat 0) with 1 in Hrange.
    replace line_ with 0 by lia. rewrite sidebarLoop_zero. lia.
  - destruct (Z.eq_dec line_ 0) as [-> | Hne].
    + rewrite sidebarLoop_zero. lia.
    + rewrite sidebarLoop_step by exact Hne.
      rewrite Nat2Z.inj_succ, Z.pow_succ_r in Hrange by lia.
      assert (Hq : 0 <= Z.quot line_ 10 < 10 ^ Z.of_nat k).
      { rewrite Z.quot_div_nonneg by lia. split.
        - apply Z.div_pos; lia.
        - apply Z.div_lt_upper_bound; lia. }
      specialize (IH (width + 1) _ Hq). lia.
Qed.

Lemma sidebarLoop_monotone (width line_ : Z) :
  forall smaller,
    0 <= smaller <= line_ ->
    sidebarLoop width smaller <= sidebarLoop width line_.
Proof.
  funelim (sidebarLoop width line_); intros smaller Hrange.
  - replace smaller with 0 by lia. rewrite sidebarLoop_zero. lia.
  - destruct (Z.eq_dec smaller 0) as [-> | Hne].
    + rewrite sidebarLoop_zero.
      match goal with
      | |- _ <= sidebarLoop ?w ?l =>
          pose proof (sidebarLoop_ge w l)
      end.
      lia.
    + rewrite (sidebarLoop_step width smaller) by exact Hne.
      match goal with
      | IH : forall _, _ -> sidebarLoop _ _ <= sidebarLoop _ _ |- _ =>
          apply IH
      end.
      split.
      * rewrite Z.quot_div_nonneg by lia. apply Z.div_pos; lia.
      * apply Z.quot_le_mono; lia.
Qed.

(** The width depends on the size of the line number only, not on its sign,
    and a line number of one digit, zero included, gives the base width. *)
Theorem getSidebarWidth_sign (maxLine : Z) :
  getSidebarWidth (- maxLine) = getSidebarWidth maxLine
  /\ (-10 < maxLine < 10 -> getSidebarWidth maxLine = 3).
Proof.
  unfold getSidebarWidth. split.
  - destruct (Z.eq_dec maxLine 0) as [-> | Hne]; [reflexivity |].
    rewrite Z.quot_opp_l by lia. apply sidebarLoop_opp.
  - intros Hsmall.
    replace (Z.quot maxLine 10) with 0; [apply sidebarLoop_zero |].
    symmetry. apply Z.quot_small_iff; lia.
Qed.

Lemma getSidebarWidth_sign_witness : getSidebarWidth (-7) = 3.
Proof.
  apply (proj2 (getSidebarWidth_sign (-7))). split; reflexivity.
Defined.

(** On every [int] the width is between 3 and 12 columns. *)
Theorem getSidebarWidth_bounds (maxLine : Z) :
  - INT_MAX - 1 <= maxLine <= INT_MAX ->
  3 <= getSidebarWidth maxLine <= 12.
Proof.
  intros Hint. split; [apply getSidebarWidth_ge_3 |].
  unfold INT_MAX in Hint.
  assert (Hpos : forall n, 0 <= n <= 2147483648 ->
                           sidebarLoop 3 (Z.quot n 10) <= 12).
  { intros n Hn.
    apply (sidebarLoop_upper 9 3 (Z.quot n 10)).
    rewrite Z.quot_div_nonneg by lia. split.
    - apply Z.div_pos; lia.
    - apply Z.div_lt_upper_bound; [lia |].
      change (10 ^ Z.of_nat 9) with 1000000000. lia. }
  destruct (Z_le_gt_dec 0 maxLine) as [Hnonneg | Hneg].
  - apply Hpos. lia.
  - unfold getSidebarWidth.
    rewrite <- (sidebarLoop_opp 3 (Z.quot maxLine 10)).
    rewrite <- Z.quot_opp_l by lia.
    apply Hpos. lia.
Qed.

Lemma getSidebarWidth_bounds_witness :
  3 <= getSidebarWidth INT_MAX <= 12.
Proof.
  apply getSidebarWidth_bounds. split; discriminate.
Defined.

(** A greater line number never gives a narrower sidebar. *)
Theorem getSidebarWidth_monotone (smaller maxLine : Z) :
  0 <= smaller <= maxLine ->
  getSidebarWidth smaller <= getSidebarWidth maxLine.
Proof.
  intros Hrange. unfold getSidebarWidth.
  apply sidebarLoop_monotone. split.
  - rewrite Z.quot_div_nonneg by lia. apply Z.div_pos; lia.
  - apply Z.quot_le_mono; lia.
Qed.

Lemma getSidebarWidth_monotone_witness :
  getSidebarWidth 99 <= getSidebarWidth 100.
Proof.
  apply getSidebarWidth_monotone. split; discriminate.
Defined.

(** ** The origin-file section, in general *)

Lemma scanSource_maxLine `{Collaborators} (origin_ : fileOrigin)
    (fileSources : codeSourceSet) :
  forall maxLine originIsFirstSource,
    let result :=
      fst (fold_left (scanSource origin_) fileSources
                     (maxLine, originIsFirstSource)) in
    maxLine <= result
    /\ (forall source, In source fileSources ->
                       line (position (s_origin source)) <= result)
    /\ (result = maxLine
        \/ exists source,
             In source fileSources
             /\ result = line (position (s_origin source))).
Proof.
  induction fileSources as [| source rest IH]; intros maxLine first; simpl.
  - split; [lia | split; [intros source [] | left; reflexivity]].
  - set (next := if maxLine <? line (position (s_origin source))
                 then line (position (s_origin source)) else maxLine).
    set (first' := if precedes origin_ source then false else first).
    destruct (IH next first') as (Hge & Hall & Hattained).
    assert (Hnext : maxLine <= next
                    /\ line (position (s_origin source)) <= next
                    /\ (next = maxLine
                        \/ next = line (position (s_origin source)))).
    { unfold next.
      destruct (Z.ltb_spec maxLine (line (position (s_origin source))));
        lia. }
    split; [lia | split].
    + intros x [<- | Hx]; [lia | apply Hall; exact Hx].
    + destruct Hattained as [Hsame | [x [Hx Hline]]].
      * destruct Hnext as (_ & _ & [Hm | Hs]).
        -- left. lia.
        -- right. exists source. split; [left; reflexivity | lia].
      * right. exists x. split; [right; exact Hx | exact Hline].
Qed.

(** The line number that sizes the sidebar of the origin-file section is
    the greatest of the line of the primary origin and the lines of the
    references in the bucket of the origin's file. *)
Theorem scanSources_maxLine `{Collaborators} (origin_ : fileOrigin)
    (fileSources : codeSourceSet) :
  let maxLine := fst (scanSources origin_ fileSources) in
  line (position origin_) <= maxLine
  /\ (forall source, In source fileSources ->
                     line (position (s_origin source)) <= maxLine)
  /\ (maxLine = line (position origin_)
      \/ exists source,
           In source fileSources
           /\ maxLine = line (position (s_origin source))).
Proof. apply scanSource_maxLine. Qed.

(** A primary origin on line 2 and a reference on line 1: the sidebar is
    sized for a line that is at least the reference's. *)
Lemma scanSources_maxLine_witness :
  let source := withIndex (codeSource (at_ 1 1 0) "") 0 in
  line (position (s_origin source))
  <= fst (@scanSources plainCollaborators (at_ 1 2 0) [source]).
Proof.
  intros source.
  apply (proj1 (proj2 (@scanSources_maxLine plainCollaborators (at_ 1 2 0)
                         [source]))).
  left. reflexivity.
Defined.

Lemma map_elements_touch (f : Z) (m : fileCodeSourceMap) :
  map_elements (map_update f (fun s => s) m) = map_elements m.
Proof.
  induction m as [| [k s] m IH]; simpl; [reflexivity |].
  destruct (f <? k); [reflexivity |].
  destruct (f =? k); [reflexivity |].
  unfold map_elements in *. simpl. rewrite IH. reflexivity.
Qed.

Lemma map_find_touch (f : Z) (m : fileCodeSourceMap) :
  map_find f (map_update f (fun s => s) m) <> None.
Proof.
  induction m as [| [k s] m IH]; simpl.
  - rewrite Z.eqb_refl. discriminate.
  - destruct (Z.ltb_spec f k); simpl.
    + rewrite Z.eqb_refl. discriminate.
    + destruct (Z.eqb_spec f k) as [Heq | Hne]; simpl.
      * rewrite (proj2 (Z.eqb_eq _ _) Heq). discriminate.
      * destruct (Z.eqb_spec f k); [contradiction | exact IH].
Qed.

Lemma map_update_touch_twice (f : Z) (m : fileCodeSourceMap) :
  map_update f (fun s => s) (map_update f (fun s => s) m)
  = map_update f (fun s => s) m.
Proof.
  induction m as [| [k s] m IH]; simpl.
  - rewrite Z.ltb_irrefl, Z.eqb_refl. reflexivity.
  - destruct (Z.ltb_spec f k) as [Hlt | Hge]; simpl.
    + rewrite Z.ltb_irrefl, Z.eqb_refl. reflexivity.
    + destruct (Z.eqb_spec f k) as [Heq | Hne]; simpl.
      * destruct (Z.ltb_spec f k); [lia |].
        rewrite (proj2 (Z.eqb_eq _ _) Heq). reflexivity.
      * destruct (Z.ltb_spec f k); [lia |].
        destruct (Z.eqb_spec f k); [contradiction |].
        rewrite IH. reflexivity.
Qed.

Lemma addOriginFileSection_report `{Collaborators} (p : codePrinter_t) :
  fst (addOriginFileSection p)
  = {| isError := isError p; code := code p;
       origin := origin p; message := message p;
       originLineSources := originLineSources p;
       sources := map_update (file (origin p)) (fun s => s) (sources p);
       sourceIndex := sourceIndex p |}.
Proof.
  unfold addOriginFileSection.
  destruct (scanSources _ _). reflexivity.
Qed.

Lemma addOriginFileSection_twice `{Collaborators} (p : codePrinter_t) :
  addOriginFileSection (fst (addOriginFileSection p))
  = (fst (addOriginFileSection p), snd (addOriginFileSection p)).
Proof.
  rewrite addOriginFileSection_report.
  unfold addOriginFileSection, originFileSources. cbn [origin sources
    originLineSources isError code message sourceIndex].
  rewrite map_update_touch_twice.
  destruct (scanSources _ _). reflexivity.
Qed.

(** Rendering the origin-file section leaves in the report every reference
    it had, in its container and in its place; its only effect on the report
    is that the per-file map has a bucket for the origin's file afterwards,
    an empty one if it had none.  The buckets of the other files are as they
    were, and rendering the section again gives the same section and changes
    nothing more. *)
Theorem addOriginFileSection_effect `{Collaborators} (p : codePrinter_t) :
  let q := fst (addOriginFileSection p) in
  map_elements (sources q) = map_elements (sources p)
  /\ originLineSources q = originLineSources p
  /\ origin q = origin p
  /\ map_find (file (origin p)) (sources q) <> None
  /\ (forall g, g <> file (origin p) ->
                map_find g (sources q) = map_find g (sources p))
  /\ addOriginFileSection q = (q, snd (addOriginFileSection p)).
Proof.
  intros q. unfold q.
  split; [| split; [| split; [| split; [| split]]]];
    [| | | | | apply addOriginFileSection_twice];
    rewrite addOriginFileSection_report; cbn [sources originLineSources
                                                 origin].
  - apply map_elements_touch.
  - reflexivity.
  - reflexivity.
  - apply map_find_touch.
  - intros g Hg. apply map_find_update_other. exact Hg.
Qed.

Lemma addOriginFileSection_effect_witness :
  let p := addSources 2 1 1 (reportAt (at_ 1 1 0)) in
  map_find 3 (sources (fst (@addOriginFileSection plainCollaborators p)))
  = map_find 3 (sources p).
Proof.
  intros p.
  apply (@addOriginFileSection_effect plainCollaborators p).
  discriminate.
Defined.

(** ** The sections, in general *)

Lemma otherFileSections_fold (originFile : Z) (m : fileCodeSourceMap) :
  forall sections,
    fold_left
      (fun (acc : list section) (entry : Z * codeSourceSet) =>
         let '(file_, fileSources) := entry in
         if negb (file_ =? originFile)
         then acc ++ [[FileSection file_ fileSources (-1) true]]
         else acc)
      m sections
    = sections ++ otherFileSections originFile m.
Proof.
  unfold otherFileSections.
  induction m as [| [k s] m IH]; intros sections; simpl.
  - rewrite app_nil_r. reflexivity.
  - rewrite IH. destruct (negb (k =? originFile)); simpl.
    + rewrite <- app_assoc. reflexivity.
    + reflexivity.
Qed.

Lemma addSourceSections_unfold `{Collaborators} (p : codePrinter_t)
    (sections : list section) :
  addSourceSections p sections
  = (fst (addOriginFileSection p),
     sections ++ snd (addOriginFileSection p)
     :: otherFileSections (file (origin p))
                          (sources (fst (addOriginFileSection p)))).
Proof.
  unfold addSourceSections.
  pose proof (addOriginFileSection_report p) as Hreport.
  destruct (addOriginFileSection p) as [p1 originSection].
  cbn [fst snd] in *. rewrite otherFileSections_fold.
  rewrite Hreport at 2. cbn [origin].
  rewrite <- app_assoc. reflexivity.
Qed.

(** [addSourceSections] keeps the sections it is given and appends the
    origin-file section, then one section for each bucket of the map whose
    file is not the origin's, in the order of the map, empty buckets
    included; each of them asks for the filename header and leaves the
    sidebar width to be computed. *)
Theorem addSourceSections_sections `{Collaborators} (p : codePrinter_t)
    (sections : list section) :
  let q := fst (addOriginFileSection p) in
  addSourceSections p sections
  = (q, sections ++ snd (addOriginFileSection p)
        :: otherFileSections (file (origin p)) (sources q))
  /\ (forall file_ fileSources,
        In [FileSection file_ fileSources (-1) true]
           (otherFileSections (file (origin p)) (sources q))
        <-> In (file_, fileSources) (sources q)
            /\ file_ <> file (origin p)).
Proof.
  intros q. split; [apply addSourceSections_unfold |].
  intros file_ fileSources. unfold otherFileSections.
  rewrite in_map_iff. split.
  - intros [[k s] [Heq Hin]]. simpl in Heq.
    injection Heq as -> ->.
    apply filter_In in Hin. destruct Hin as [Hin Hne]. simpl in Hne.
    split; [exact Hin |].
    apply negb_true_iff, Z.eqb_neq in Hne. exact Hne.
  - intros [Hin Hne]. exists (file_, fileSources).
    split; [reflexivity |].
    apply filter_In. split; [exact Hin |]. simpl.
    apply negb_true_iff, Z.eqb_neq. exact Hne.
Qed.

(** ** The composer, in general *)

Lemma print_valid `{Collaborators} (p p1 : codePrinter_t) (n : Z) :
  isValid (origin p) = true ->
  supressSources p = Some (p1, n) ->
  print p =
  Returned (fst (addOriginFileSection p1))
    ((if isError p then printError else printWarning)
       (message p) (code p)
       (snd (addSourceSections p1 [])
        ++ [[Chars (getSupressedMessage p n)]])).
Proof.
  intros Hvalid Hsome. unfold print, OCCA_ERROR. rewrite Hvalid, Hsome.
  destruct (supressSources_some p p1 n Hsome)
    as (_ & _ & _ & HisError & Hmessage & Hcode & _).
  rewrite (addSourceSections_unfold p1 []). cbn [fst snd].
  rewrite addOriginFileSection_report.
  cbn [isError message code].
  unfold getSupressedMessage. cbn [isError].
  rewrite HisError, Hmessage, Hcode.
  destruct (isError p); reflexivity.
Qed.

Lemma getSupressedMessage_zero `{Collaborators} (p : codePrinter_t) :
  getSupressedMessage p 0 = "".
Proof. reflexivity. Qed.

(** [print] hands a footer section to the sink on every report it renders:
    when the per-file map holds no more references than the budget, the last
    section is the empty text, after the sections of the whole report. *)
Theorem print_footer_within_budget `{Collaborators} (p : codePrinter_t) :
  isValid (origin p) = true ->
  sourceCount (sources p) <= DEFAULT_MAX_ERRORS_DISPLAYED ->
  print p =
  Returned (fst (addOriginFileSection p))
    ((if isError p then printError else printWarning)
       (message p) (code p)
       (snd (addSourceSections p []) ++ [[Chars ""]])).
Proof.
  intros Hvalid Hfits.
  rewrite (print_valid p p 0 Hvalid (supressSources_fits p Hfits)).
  reflexivity.
Qed.

(** An error report with a primary origin and three references. *)
Lemma print_footer_within_budget_witness :
  let p := addSources 2 1 3 (reportAt (at_ 1 1 0)) in
  @print plainCollaborators p =
  Returned (fst (@addOriginFileSection plainCollaborators p))
    (printError "message" "E100"
       (snd (@addSourceSections plainCollaborators p []) ++ [[Chars ""]])).
Proof.
  intros p.
  apply (@print_footer_within_budget plainCollaborators p);
    [reflexivity | vm_compute; discriminate].
Defined.

Lemma sourceCount_touch (f : Z) (m : fileCodeSourceMap) :
  sourceCount (map_update f (fun s => s) m) = sourceCount m.
Proof. rewrite !sourceCount_elements, map_elements_touch. reflexivity. Qed.

(** [print] consumes what it suppresses.  When its suppression step
    returns, the report it leaves keeps the origin-line set and the first
    five references of the per-file map, and a second [print] of that report
    makes the same call to the sink but for the footer, which is then the
    empty text: the count of the suppressed references is gone. *)
Theorem print_twice `{Collaborators} (p p1 : codePrinter_t) (n : Z) :
  isValid (origin p) = true ->
  supressSources p = Some (p1, n) ->
  let sections := snd (addSourceSections p1 []) in
  let sink := (if isError p then printError else printWarning)
                (message p) (code p) in
  exists q,
    print p =
    Returned q (sink (sections ++ [[Chars (getSupressedMessage p n)]]))
    /\ print q = Returned q (sink (sections ++ [[Chars ""]]))
    /\ originLineSources q = originLineSources p
    /\ map_elements (sources q)
       = firstn (Z.to_nat DEFAULT_MAX_ERRORS_DISPLAYED)
                (map_elements (sources p)).
Proof.
  intros Hvalid Hsome sections sink.
  exists (fst (addOriginFileSection p1)).
  destruct (supressSources_some p p1 n Hsome)
    as (Hloop & Hlines & Horigin & HisError & Hmessage & Hcode & _).
  assert (Hcount : sourceCount (sources p1) <= DEFAULT_MAX_ERRORS_DISPLAYED).
  { apply (supressLoop_count (sources p) (sources p1)
             DEFAULT_MAX_ERRORS_DISPLAYED 0 n); [| exact Hloop].
    unfold DEFAULT_MAX_ERRORS_DISPLAYED. lia. }
  split; [exact (print_valid p p1 n Hvalid Hsome) | split; [| split]].
  - pose proof (addOriginFileSection_twice p1) as Htwice.
    pose proof (addOriginFileSection_report p1) as Hreport.
    unfold sink, sections.
    rewrite (addSourceSections_unfold p1 []). cbn [snd].
    remember (fst (addOriginFileSection p1)) as q eqn:Hq.
    assert (Hfields : isError q = isError p /\ message q = message p
                      /\ code q = code p /\ origin q = origin p
                      /\ sourceCount (sources q) = sourceCount (sources p1)).
    { rewrite Hreport. cbn.
      rewrite HisError, Hmessage, Hcode, Horigin, sourceCount_touch.
      repeat split. }
    destruct Hfields as (HqError & Hqmessage & Hqcode & Hqorigin & Hqcount).
    assert (Hvalid' : isValid (origin q) = true)
      by (rewrite Hqorigin; exact Hvalid).
    assert (Hfits : supressSources q = Some (q, 0))
      by (apply supressSources_fits; rewrite Hqcount; exact Hcount).
    rewrite (print_valid q q 0 Hvalid' Hfits).
    rewrite (addSourceSections_unfold q []), Htwice. cbn [fst snd].
    rewrite getSupressedMessage_zero.
    rewrite HqError, Hqmessage, Hqcode, Hqorigin, Horigin.
    reflexivity.
  - rewrite addOriginFileSection_report. cbn. exact Hlines.
  - rewrite addOriginFileSection_report. cbn [sources].
    rewrite map_elements_touch.
    apply (supressLoop_elements (sources p) DEFAULT_MAX_ERRORS_DISPLAYED 0
             (sources p1) n); [| exact Hloop].
    unfold DEFAULT_MAX_ERRORS_DISPLAYED. lia.
Qed.

(** Seven references in one file: the first [print] has a footer for two
    suppressed references, the second an empty one. *)
Lemma print_twice_witness :
  let p := addSources 2 1 7 (reportAt (at_ 1 1 0)) in
  exists p1 q,
    supressSources p = Some (p1, 2)
    /\ @print plainCollaborators p =
       Returned q
         (printError "message" "E100"
            (snd (@addSourceSections plainCollaborators p1 [])
             ++ [[Chars "Supressed 2 additional errors"]]))
    /\ @print plainCollaborators q =
       Returned q
         (printError "message" "E100"
            (snd (@addSourceSections plainCollaborators p1 [])
             ++ [[Chars ""]])).
Proof.
  intros p. eexists.
  refine (let H := @print_twice plainCollaborators p _ 2 eq_refl eq_refl in _).
  destruct H as (q & Hfirst & Hsecond & _).
  exists q. split; [reflexivity | split; [exact Hfirst | exact Hsecond]].
Defined.



Lemma inserts_isError `{Collaborators} (ops : list insertion) :
  forall p, isError (inserts p ops) = isError p.
Proof.
  induction ops as [| [origin_ message_ | source] ops IH]; intros p; simpl;
    [reflexivity | rewrite IH; reflexivity |].
  rewrite IH. unfold withSource. destruct (_ && _); reflexivity.
Qed.

(** References alone do not make a report printable.  When the origin that
    a new report starts with is not valid, a report built by [errorCode] or
    [warningCode] and [withSource] calls only raises the error of [print],
    named after its severity, however many references it holds. *)
Theorem print_without_withMessage `{Collaborators} (code_ : string)
    (added : list codeSource_t) :
  isValid defaultOrigin = false ->
  let e := inserts (errorCode code_) (List.map WithSource added) in
  let w := inserts (warningCode code_) (List.map WithSource added) in
  print e = Raised "Error code is missing its origin" e
  /\ print w = Raised "Warning code is missing its origin" w.
Proof.
  intros Hdefault e w.
  unfold print, OCCA_ERROR, e, w.
  rewrite !withSources_origin, !inserts_isError.
  cbn [errorCode warningCode codePrinter origin isError].
  rewrite Hdefault. split; reflexivity.
Qed.

Lemma print_without_withMessage_witness :
  let e := @inserts plainCollaborators (@errorCode plainCollaborators "E100")
             (List.map WithSource [codeSource (at_ 1 1 0) "";
                                   codeSource (at_ 1 2 0) ""]) in
  @print plainCollaborators e = Raised "Error code is missing its origin" e.
Proof.
  intros e.
  apply (@print_without_withMessage plainCollaborators "E100"
           [codeSource (at_ 1 1 0) ""; codeSource (at_ 1 2 0) ""]).
  reflexivity.
Defined.

(** ** The file sections, in general *)

Lemma callSources_app (calls1 calls2 : list fileSectionCall) :
  callSources (calls1 ++ calls2) = callSources calls1 ++ callSources calls2.
Proof.
  induction calls1 as [| [file_ | lineSources] calls1 IH]; simpl;
    [reflexivity | exact IH |].
  rewrite IH, app_assoc. reflexivity.
Qed.

Lemma lineGroups_sources `{Collaborators} (rest : list codeSource_t) :
  forall currentOrigin pending,
    callSources (lineGroups currentOrigin pending rest) = pending ++ rest.
Proof.
  induction rest as [| source rest IH]; intros currentOrigin pending; simpl.
  - reflexivity.
  - destruct (negb (onSameLine (s_origin source) currentOrigin)); simpl.
    + rewrite IH. reflexivity.
    + rewrite IH, <- app_assoc. reflexivity.
Qed.

Lemma lineGroups_ranges `{Collaborators} (rest : list codeSource_t) :
  forall currentOrigin pending,
    exists more ranges,
      callRanges (lineGroups currentOrigin pending rest)
      = (pending ++ more) :: ranges
      /\ onLineOf currentOrigin more = true
      /\ lineGrouped currentOrigin ranges = true.
Proof.
  induction rest as [| source rest IH]; intros currentOrigin pending; simpl.
  - exists [], []. rewrite app_nil_r. repeat split.
  - destruct (onSameLine (s_origin source) currentOrigin) eqn:Hsame; simpl.
    + destruct (IH currentOrigin (pending ++ [source]))
        as (more & ranges & Hranges & Hmore & Hgrouped).
      exists (source :: more), ranges.
      rewrite Hranges, <- app_assoc. simpl. rewrite Hsame, Hmore.
      repeat split. exact Hgrouped.
    + destruct (IH (s_origin source) [source])
        as (more & ranges & Hranges & Hmore & Hgrouped).
      exists [], ((source :: more) :: ranges).
      rewrite Hranges, app_nil_r. simpl.
      rewrite Hsame, Hmore, Hgrouped. repeat split.
Qed.

(** The stream overload of [addFileSection] passes every reference of the
    set to [addSourceLineMessages] once, in the order of the set: the ranges
    of its calls, put end to end, are the set.  On an empty set it makes no
    call at all, not even for the filename. *)
Theorem addFileSection_partition `{Collaborators} (file_ : Z)
    (fileSources : codeSourceSet) (sidebarWidth : Z) (addFilename : bool) :
  callSources (fst (addFileSection file_ fileSources sidebarWidth addFilename))
  = fileSources
  /\ List.concat
       (callRanges
          (fst (addFileSection file_ fileSources sidebarWidth addFilename)))
     = fileSources
  /\ addFileSection file_ [] sidebarWidth addFilename = ([], sidebarWidth).
Proof.
  assert (Hconcat : forall calls,
             List.concat (callRanges calls) = callSources calls).
  { induction calls as [| [f | lineSources] calls IH]; simpl;
      [reflexivity | exact IH | rewrite IH; reflexivity]. }
  assert (Hsources :
            callSources
              (fst (addFileSection file_ fileSources sidebarWidth addFilename))
            = fileSources).
  { unfold addFileSection. destruct fileSources as [| first rest];
      [reflexivity |].
    cbn [fst]. rewrite callSources_app, lineGroups_sources.
    destruct addFilename; reflexivity. }
  split; [exact Hsources | split; [| reflexivity]].
  rewrite Hconcat. exact Hsources.
Qed.

(** The ranges that the stream overload of [addFileSection] passes to
    [addSourceLineMessages] are line groups.  The first range holds the
    leading references that are on the line of the first origin with its
    line set to -1, and is empty when the first reference is not on that
    line; every later range starts where a reference leaves the line of the
    first reference of the range before, is not empty, and holds references
    on the line of its first one. *)
Theorem addFileSection_line_groups `{Collaborators} (file_ : Z)
    (first : codeSource_t) (others : list codeSource_t)
    (sidebarWidth : Z) (addFilename : bool) :
  let fileSources := first :: others in
  let sentinel := withLine (s_origin first) (-1) in
  exists leading ranges,
    callRanges
      (fst (addFileSection file_ fileSources sidebarWidth addFilename))
    = leading :: ranges
    /\ onLineOf sentinel leading = true
    /\ lineGrouped sentinel ranges = true
    /\ (onSameLine (s_origin first) sentinel = false ->
        leading = [] /\ ranges <> []).
Proof.
  intros fileSources sentinel.
  destruct (lineGroups_ranges fileSources sentinel [])
    as (more & ranges & Hranges & Hmore & Hgrouped).
  exists more, ranges.
  assert (Hcalls :
            callRanges
              (fst (addFileSection file_ fileSources sidebarWidth addFilename))
            = more :: ranges).
  { unfold addFileSection, fileSources. cbn [fst].
    fold fileSources. fold sentinel.
    destruct addFilename; cbn [app callRanges]; exact Hranges. }
  split; [exact Hcalls | split; [exact Hmore | split; [exact Hgrouped |]]].
  intros Hfirst.
  unfold fileSources in Hranges. cbn [lineGroups] in Hranges.
  rewrite Hfirst in Hranges. cbn [negb callRanges app] in Hranges.
  injection Hranges as Hleading Hlater.
  split; [symmetry; exact Hleading |].
  destruct (lineGroups_ranges others (s_origin first) [first])
    as (more' & ranges' & Hranges' & _).
  rewrite Hranges' in Hlater. rewrite <- Hlater. discriminate.
Qed.

(** Three references, on the lines 1, 1 and 2 of a file: an empty range,
    then the two references of line 1, then the reference of line 2. *)
Lemma addFileSection_line_groups_witness :
  let a := withIndex (codeSource (at_ 2 1 0) "") 0 in
  let b := withIndex (codeSource (at_ 2 1 4) "") 1 in
  let c := withIndex (codeSource (at_ 2 2 0) "") 2 in
  exists ranges,
    callRanges (fst (@addFileSection plainCollaborators 2 [a; b; c] (-1) true))
    = [] :: ranges
    /\ ranges <> [].
Proof.
  intros a b c.
  destruct (@addFileSection_line_groups plainCollaborators 2 a [b; c]
              (-1) true)
    as (leading & ranges & Hcalls & _ & _ & Hempty).
  destruct (Hempty eq_refl) as [Hleading Hranges].
  exists ranges. rewrite Hcalls, Hleading. split; [reflexivity | exact Hranges].
Defined.

(** ** The footer, in general *)

(** The footer is the empty text for a count that is not positive.  For a
    positive count it is the coloured text made of [Supressed], the count in
    decimal, [additional] and the noun of the severity, in the plural
    exactly when the count exceeds one. *)
Theorem getSupressedMessage_shape `{Collaborators} (p : codePrinter_t)
    (supressedCount : Z) :
  (supressedCount <= 0 -> getSupressedMessage p supressedCount = "")
  /\ (0 < supressedCount ->
      getSupressedMessage p supressedCount =
      yellow ("Supressed " ++ string_of_int supressedCount ++ " additional "
              ++ (if isError p then "error" else "warning")
              ++ (if (1 <? supressedCount)%Z then "s" else ""))%string).
Proof.
  split.
  - intros Hle. unfold getSupressedMessage.
    destruct (Z.leb_spec supressedCount 0); [reflexivity | lia].
  - apply getSupressedMessage_positive.
Qed.

Lemma getSupressedMessage_shape_witness :
  @getSupressedMessage plainCollaborators
    (@warningCode plainCollaborators "W7") 1
  = "Supressed 1 additional warning"
  /\ @getSupressedMessage plainCollaborators
       (@warningCode plainCollaborators "W7") (-3)
     = "".
Proof.
  split.
  - apply (proj2 (@getSupressedMessage_shape plainCollaborators
                    (@warningCode plainCollaborators "W7") 1)).
    reflexivity.
  - apply (proj1 (@getSupressedMessage_shape plainCollaborators
                    (@warningCode plainCollaborators "W7") (-3))).
    discriminate.
Defined.
